(** * Ayurveda dictionary app: home screen (index.tsx) and results screen
    (results.tsx)

    A shallow embedding of the state logic of the two screens: the debounce
    helper with the timers it drives, the search history and the favourites
    with their persistence in AsyncStorage, the filter toggle and the two
    fetch operations, followed by the properties proved about them. *)

From Stdlib Require Import ZArith NArith String Ascii List Bool Lia.
From Stdlib Require Import Sorting.Sorted Permutation.
From stdpp Require Import base option list strings gmap.

Open Scope string_scope.

Set Warnings "-register-all".

(** ** JavaScript values, exceptions and JSON *)

Module JS.

(** A JavaScript string is kept as the bytes of its UTF-8 encoding. *)

Definition quote_char : ascii := ascii_of_nat 34.
Definition backslash_char : ascii := ascii_of_nat 92.

(** [!s] for a string: only the empty string is falsy. *)
Definition falsy (s : string) : bool :=
  match s with
  | EmptyString => true
  | String _ _ => false
  end.

(** [x || undefined] for [x : string | null]. *)
Definition or_undefined (x : option string) : option string :=
  match x with
  | Some s => if falsy s then None else Some s
  | None => None
  end.

(** [xs || []] for an array that may be missing. *)
Definition or_empty {A : Type} (xs : option (list A)) : list A :=
  match xs with
  | Some l => l
  | None => []
  end.

(** The values [JSON.parse] can return.  A number keeps the text it was
    written with; its value as a double is never looked at. *)
Inductive JSValue : Type :=
| JNull
| JBool (b : bool)
| JNum (lexeme : string)
| JStr (s : string)
| JArr (items : list JSValue)
| JObj (members : list (string * JSValue)).

Inductive JSError : Type :=
| SyntaxError
| TypeError
| RequestFailed.

(** How a call ends: with a value, or with a thrown exception (for an
    [async] function: a rejected promise). *)
Inductive Completion (A : Type) : Type :=
| Normal (a : A)
| Throw (e : JSError).
Arguments Normal {A} a.
Arguments Throw {A} e.

(** *** JSON.stringify on an array of strings *)

Definition hex_digit (n : N) : ascii :=
  if (n <? 10)%N then ascii_of_N (48 + n) else ascii_of_N (87 + n).

Definition short_escape (e : ascii) : string :=
  String backslash_char (String e EmptyString).

Definition unicode_escape (n : N) : string :=
  String backslash_char
    ("u00" ++ String (hex_digit (n / 16)) (String (hex_digit (n mod 16)) EmptyString)).

Definition quote_byte (c : ascii) : string :=
  let n := N_of_ascii c in
  if (n =? 34)%N then short_escape quote_char
  else if (n =? 92)%N then short_escape backslash_char
  else if (n =? 8)%N then short_escape "b"
  else if (n =? 12)%N then short_escape "f"
  else if (n =? 10)%N then short_escape "n"
  else if (n =? 13)%N then short_escape "r"
  else if (n =? 9)%N then short_escape "t"
  else if (n <? 32)%N then unicode_escape n
  else String c EmptyString.

Fixpoint quote_bytes (s : string) : string :=
  match s with
  | EmptyString => EmptyString
  | String c rest => quote_byte c ++ quote_bytes rest
  end.

Definition quote_string (s : string) : string :=
  String quote_char (quote_bytes s ++ String quote_char EmptyString).

Fixpoint join_commas (parts : list string) : string :=
  match parts with
  | [] => EmptyString
  | [p] => p
  | p :: rest => p ++ "," ++ join_commas rest
  end.

Definition JSON_stringify (xs : list string) : string :=
  "[" ++ join_commas (map quote_string xs) ++ "]".

(** *** JSON.parse *)

Definition is_ws (c : ascii) : bool :=
  let n := N_of_ascii c in
  ((n =? 32) || (n =? 9) || (n =? 10) || (n =? 13))%N.

Fixpoint skip_ws (s : string) : string :=
  match s with
  | String c rest => if is_ws c then skip_ws rest else s
  | EmptyString => s
  end.

Definition is_digit (c : ascii) : bool :=
  let n := N_of_ascii c in ((48 <=? n) && (n <=? 57))%N.

Definition hex_value (c : ascii) : option N :=
  let n := N_of_ascii c in
  if ((48 <=? n) && (n <=? 57))%N then Some (n - 48)%N
  else if ((97 <=? n) && (n <=? 102))%N then Some (n - 87)%N
  else if ((65 <=? n) && (n <=? 70))%N then Some (n - 55)%N
  else None.

Definition hex4 (a b c d : ascii) : option N :=
  match hex_value a, hex_value b, hex_value c, hex_value d with
  | Some x, Some y, Some z, Some w => Some (((x * 16 + y) * 16 + z) * 16 + w)%N
  | _, _, _, _ => None
  end.

(** A string literal is read as a list of units: the bytes written as they
    are, and the code units written as [\uXXXX]. *)
Inductive StrUnit : Type :=
| Byte (c : ascii)
| CodeUnit (n : N).

Definition simple_escape (e : ascii) : option ascii :=
  let n := N_of_ascii e in
  if (n =? 34)%N then Some quote_char
  else if (n =? 92)%N then Some backslash_char
  else if (n =? 47)%N then Some "/"%char
  else if (n =? 98)%N then Some (ascii_of_N 8)
  else if (n =? 102)%N then Some (ascii_of_N 12)
  else if (n =? 110)%N then Some (ascii_of_N 10)
  else if (n =? 114)%N then Some (ascii_of_N 13)
  else if (n =? 116)%N then Some (ascii_of_N 9)
  else None.

(** The characters after the opening quote, up to the closing one. *)
Fixpoint parse_chars (s : string) : option (list StrUnit * string) :=
  match s with
  | EmptyString => None
  | String c rest =>
      if Ascii.eqb c quote_char then Some ([], rest)
      else if Ascii.eqb c backslash_char then
        match rest with
        | String e rest1 =>
            if Ascii.eqb e "u" then
              match rest1 with
              | String h1 (String h2 (String h3 (String h4 rest2))) =>
                  match hex4 h1 h2 h3 h4 with
                  | Some n =>
                      match parse_chars rest2 with
                      | Some (us, r) => Some (CodeUnit n :: us, r)
                      | None => None
                      end
                  | None => None
                  end
              | _ => None
              end
            else
              match simple_escape e with
              | Some b =>
                  match parse_chars rest1 with
                  | Some (us, r) => Some (Byte b :: us, r)
                  | None => None
                  end
              | None => None
              end
        | EmptyString => None
        end
      else if (N_of_ascii c <? 32)%N then None
      else
        match parse_chars rest with
        | Some (us, r) => Some (Byte c :: us, r)
        | None => None
        end
  end.

(** UTF-8 bytes of a code point (a lone surrogate gets the three bytes the
    same scheme gives it). *)
Definition utf8_encode (cp : N) : list ascii :=
  (if cp <? 128 then [ascii_of_N cp]
   else if cp <? 2048 then
     [ascii_of_N (192 + cp / 64); ascii_of_N (128 + cp mod 64)]
   else if cp <? 65536 then
     [ascii_of_N (224 + cp / 4096); ascii_of_N (128 + (cp / 64) mod 64);
      ascii_of_N (128 + cp mod 64)]
   else
     [ascii_of_N (240 + cp / 262144); ascii_of_N (128 + (cp / 4096) mod 64);
      ascii_of_N (128 + (cp / 64) mod 64); ascii_of_N (128 + cp mod 64)])%N.

Definition is_high_surrogate (n : N) : bool := ((55296 <=? n) && (n <=? 56319))%N.
Definition is_low_surrogate (n : N) : bool := ((56320 <=? n) && (n <=? 57343))%N.

Fixpoint decode_units (us : list StrUnit) : list ascii :=
  match us with
  | [] => []
  | Byte c :: rest => c :: decode_units rest
  | CodeUnit hi :: rest =>
      match rest with
      | CodeUnit lo :: rest' =>
          if is_high_surrogate hi && is_low_surrogate lo
          then utf8_encode (65536 + (hi - 55296) * 1024 + (lo - 56320))%N
                 ++ decode_units rest'
          else utf8_encode hi ++ decode_units rest
      | _ => utf8_encode hi ++ decode_units rest
      end
  end.

Definition parse_string (s : string) : option (string * string) :=
  match parse_chars s with
  | Some (us, rest) => Some (string_of_list_ascii (decode_units us), rest)
  | None => None
  end.

Fixpoint span_digits (s : string) : string * string :=
  match s with
  | String c rest =>
      if is_digit c
      then let '(ds, r) := span_digits rest in (String c ds, r)
      else (EmptyString, s)
  | EmptyString => (EmptyString, s)
  end.

(** [0] or a digit from 1 to 9 followed by digits. *)
Definition parse_int (s : string) : option (string * string) :=
  match s with
  | String c rest =>
      if Ascii.eqb c "0" then Some ("0", rest)
      else if is_digit c
      then let '(ds, r) := span_digits rest in Some (String c ds, r)
      else None
  | EmptyString => None
  end.

Definition parse_frac (s : string) : option (string * string) :=
  match s with
  | String c rest =>
      if Ascii.eqb c "." then
        match span_digits rest with
        | (EmptyString, _) => None
        | (ds, r) => Some (String c ds, r)
        end
      else Some (EmptyString, s)
  | EmptyString => Some (EmptyString, s)
  end.

Definition parse_sign (s : string) : string * string :=
  match s with
  | String c rest =>
      if Ascii.eqb c "+" || Ascii.eqb c "-"
      then (String c EmptyString, rest) else (EmptyString, s)
  | EmptyString => (EmptyString, s)
  end.

Definition parse_exp (s : string) : option (string * string) :=
  match s with
  | String c rest =>
      if Ascii.eqb c "e" || Ascii.eqb c "E" then
        let '(sg, r1) := parse_sign rest in
        match span_digits r1 with
        | (EmptyString, _) => None
        | (ds, r) => Some (String c (sg ++ ds), r)
        end
      else Some (EmptyString, s)
  | EmptyString => Some (EmptyString, s)
  end.

Definition parse_minus (s : string) : string * string :=
  match s with
  | String c rest =>
      if Ascii.eqb c "-" then (String c EmptyString, rest) else (EmptyString, s)
  | EmptyString => (EmptyString, s)
  end.

Definition parse_number (s : string) : option (string * string) :=
  let '(m, r0) := parse_minus s in
  match parse_int r0 with
  | Some (i, r1) =>
      match parse_frac r1 with
      | Some (f, r2) =>
          match parse_exp r2 with
          | Some (e, r3) => Some (m ++ i ++ f ++ e, r3)
          | None => None
          end
      | None => None
      end
  | None => None
  end.

(** [strip_prefix p s] is what follows [p] in [s]. *)
Fixpoint strip_prefix (p s : string) : option string :=
  match p with
  | EmptyString => Some s
  | String a p' =>
      match s with
      | String b s' => if Ascii.eqb a b then strip_prefix p' s' else None
      | EmptyString => None
      end
  end.

(** What reading a value gives: the value and the rest of the text, a
    syntax error, or a recursion budget that was too small. *)
Inductive Parse (A : Type) : Type :=
| Parsed (a : A) (rest : string)
| Invalid
| OutOfFuel.
Arguments Parsed {A} a rest.
Arguments Invalid {A}.
Arguments OutOfFuel {A}.

Fixpoint parse_value (fuel : nat) (s : string) {struct fuel} : Parse JSValue :=
  match fuel with
  | O => OutOfFuel
  | S fuel' =>
      match skip_ws s with
      | EmptyString => Invalid
      | String c rest =>
          if Ascii.eqb c "[" then
            match skip_ws rest with
            | String d rest' =>
                if Ascii.eqb d "]" then Parsed (JArr []) rest'
                else
                  match parse_elements fuel' rest with
                  | Parsed vs r => Parsed (JArr vs) r
                  | Invalid => Invalid
                  | OutOfFuel => OutOfFuel
                  end
            | EmptyString => Invalid
            end
          else if Ascii.eqb c "{" then
            match skip_ws rest with
            | String d rest' =>
                if Ascii.eqb d "}" then Parsed (JObj []) rest'
                else
                  match parse_members fuel' rest with
                  | Parsed ms r => Parsed (JObj ms) r
                  | Invalid => Invalid
                  | OutOfFuel => OutOfFuel
                  end
            | EmptyString => Invalid
            end
          else if Ascii.eqb c quote_char then
            match parse_string rest with
            | Some (str, r) => Parsed (JStr str) r
            | None => Invalid
            end
          else if Ascii.eqb c "t" then
            match strip_prefix "rue" rest with
            | Some r => Parsed (JBool true) r
            | None => Invalid
            end
          else if Ascii.eqb c "f" then
            match strip_prefix "alse" rest with
            | Some r => Parsed (JBool false) r
            | None => Invalid
            end
          else if Ascii.eqb c "n" then
            match strip_prefix "ull" rest with
            | Some r => Parsed JNull r
            | None => Invalid
            end
          else
            match parse_number (String c rest) with
            | Some (lexeme, r) => Parsed (JNum lexeme) r
            | None => Invalid
            end
      end
  end

with parse_elements (fuel : nat) (s : string) {struct fuel}
  : Parse (list JSValue) :=
  match fuel with
  | O => OutOfFuel
  | S fuel' =>
      match parse_value fuel' s with
      | Parsed v r =>
          match skip_ws r with
          | String c r' =>
              if Ascii.eqb c "," then
                match parse_elements fuel' r' with
                | Parsed vs r'' => Parsed (v :: vs) r''
                | Invalid => Invalid
                | OutOfFuel => OutOfFuel
                end
              else if Ascii.eqb c "]" then Parsed [v] r'
              else Invalid
          | EmptyString => Invalid
          end
      | Invalid => Invalid
      | OutOfFuel => OutOfFuel
      end
  end

with parse_members (fuel : nat) (s : string) {struct fuel}
  : Parse (list (string * JSValue)) :=
  match fuel with
  | O => OutOfFuel
  | S fuel' =>
      match skip_ws s with
      | String q s1 =>
          if Ascii.eqb q quote_char then
            match parse_string s1 with
            | Some (key, s2) =>
                match skip_ws s2 with
                | String colon s3 =>
                    if Ascii.eqb colon ":" then
                      match parse_value fuel' s3 with
                      | Parsed v r =>
                          match skip_ws r with
                          | String c r' =>
                              if Ascii.eqb c "," then
                                match parse_members fuel' r' with
                                | Parsed ms r'' => Parsed ((key, v) :: ms) r''
                                | Invalid => Invalid
                                | OutOfFuel => OutOfFuel
                                end
                              else if Ascii.eqb c "}" then Parsed [(key, v)] r'
                              else Invalid
                          | EmptyString => Invalid
                          end
                      | Invalid => Invalid
                      | OutOfFuel => OutOfFuel
                      end
                    else Invalid
                | EmptyString => Invalid
                end
            | None => Invalid
            end
          else Invalid
      | EmptyString => Invalid
      end
  end.

Definition parse_fuel (s : string) : nat := 2 * String.length s + 1.

(** [JSON.parse]: one value, with white space around it and nothing else. *)
Definition JSON_parse (s : string) : Parse JSValue :=
  match parse_value (parse_fuel s) s with
  | Parsed v rest =>
      match skip_ws rest with
      | EmptyString => Parsed v EmptyString
      | String _ _ => Invalid
      end
  | Invalid => Invalid
  | OutOfFuel => OutOfFuel
  end.

(** An array whose items are all strings, as a list of strings. *)
Fixpoint as_strings (items : list JSValue) : option (list string) :=
  match items with
  | [] => Some []
  | JStr s :: rest =>
      match as_strings rest with
      | Some l => Some (s :: l)
      | None => None
      end
  | _ :: _ => None
  end.

Definition as_string_array (v : JSValue) : option (list string) :=
  match v with
  | JArr items => as_strings items
  | _ => None
  end.

Definition of_strings (l : list string) : JSValue := JArr (map JStr l).

End JS.

Import JS.

(** ** Calls that leave a trace of effects

    A handler of a screen reads the state of the render it was created in and
    asks for changes through the setters of [useState], the storage, the
    router and the lookup API.  [Act E A] is such a call: the effects it
    asked for, in order, and how it ended. *)

Module Act.

Local Open Scope list_scope.

Definition Act (E A : Type) : Type := list E * Completion A.

Definition ret {E A : Type} (a : A) : Act E A := ([], Normal a).

Definition bind {E A B : Type} (m : Act E A) (k : A -> Act E B) : Act E B :=
  match m with
  | (t, Normal a) => let '(t', c) := k a in (t ++ t', c)
  | (t, Throw e) => (t, Throw e)
  end.

Definition emit {E : Type} (e : E) : Act E unit := ([e], Normal tt).

Definition throw {E A : Type} (e : JSError) : Act E A := ([], Throw e).

(** [try { body } catch (error) { handler error }] *)
Definition try_catch {E A : Type} (body : Act E A) (handler : JSError -> Act E A)
  : Act E A :=
  match body with
  | (t, Normal a) => (t, Normal a)
  | (t, Throw e) => let '(t', c) := handler e in (t ++ t', c)
  end.

(** [try { body } finally { cleanup }]: the cleanup runs on both ways out;
    the body's completion stands unless the cleanup itself throws. *)
Definition try_finally {E A : Type} (body : Act E A) (cleanup : Act E unit)
  : Act E A :=
  let '(t, c) := body in
  let '(t', c') := cleanup in
  (t ++ t', match c' with
            | Normal _ => c
            | Throw e => Throw e
            end).

Definition effects {E A : Type} (m : Act E A) : list E := fst m.
Definition completion {E A : Type} (m : Act E A) : Completion A := snd m.

Declare Scope act_scope.
Delimit Scope act_scope with act.
Notation "x <- m ;; k" := (bind m (fun x => k))
  (at level 100, m at next level, right associativity) : act_scope.
Notation "m ;; k" := (bind m (fun _ => k))
  (at level 100, right associativity) : act_scope.

End Act.

Import Act.

(** ** Timers and [debounce] (index.tsx, lines 30-36) *)

Module Timers.

Local Open Scope Z_scope.
Local Open Scope list_scope.

Section Loop.

(** The arguments a debounced call was made with. *)
Context {Args : Type}.

(** A timer set by [setTimeout(() => func(...args), delay)]: running its
    callback calls the handler with [timer_args]. *)
Record Timer : Type := {
  timer_id : nat;
  fire_at : Z;
  timer_args : Args
}.

Inductive TimerEvent : Type :=
| Scheduled (id : nat) (due : Z)
| Cleared (id : nat)
| Fired (id : nat) (args : Args).

(** The timers of the event loop: the clock, the next handle
    [setTimeout] gives out, the timers waiting, and what happened. *)
Record Loop : Type := {
  now : Z;
  next_id : nat;
  pending : list Timer;
  trace : list TimerEvent
}.

Definition idle (t0 : Z) (n0 : nat) : Loop :=
  {| now := t0; next_id := n0; pending := []; trace := [] |}.

(** [setTimeout(() => func(...args), delay)] for a delay that is taken as
    it is, from 1 to 2^31 - 1, as the 500 of the home screen is: the timer
    is due [delay] after now.  (A delay below 0 is taken as 0 and one from
    2^31 on may be cut down; the properties below keep to delays in the
    range.) *)
Definition setTimeout (args : Args) (delay : Z) (l : Loop) : nat * Loop :=
  let id := next_id l in
  let due := now l + delay in
  (id,
   {| now := now l;
      next_id := S id;
      pending := pending l ++ [{| timer_id := id; fire_at := due; timer_args := args |}];
      trace := trace l ++ [Scheduled id due] |}).

Definition is_pending (id : nat) (l : Loop) : bool :=
  existsb (fun tm => Nat.eqb (timer_id tm) id) (pending l).

(** [clearTimeout(h)]: nothing happens for [undefined] and for a handle
    whose timer has run already. *)
Definition clearTimeout (h : option nat) (l : Loop) : Loop :=
  match h with
  | None => l
  | Some id =>
      if is_pending id l then
        {| now := now l;
           next_id := next_id l;
           pending := List.filter (fun tm => negb (Nat.eqb (timer_id tm) id)) (pending l);
           trace := trace l ++ [Cleared id] |}
      else l
  end.

(** The timers that are due run in the order of their times, and in the
    order they were set when the times are equal. *)
Fixpoint insert_by_time (tm : Timer) (sorted : list Timer) : list Timer :=
  match sorted with
  | [] => [tm]
  | other :: rest =>
      if fire_at tm <=? fire_at other then tm :: other :: rest
      else other :: insert_by_time tm rest
  end.

Definition sort_by_time (tms : list Timer) : list Timer :=
  fold_right insert_by_time [] tms.

(** The clock moves to [t] and every timer due by then runs. *)
Definition advance_to (t : Z) (l : Loop) : Loop :=
  let due := List.filter (fun tm => fire_at tm <=? t) (pending l) in
  let later := List.filter (fun tm => negb (fire_at tm <=? t)) (pending l) in
  {| now := Z.max (now l) t;
     next_id := next_id l;
     pending := later;
     trace := trace l ++ map (fun tm => Fired (timer_id tm) (timer_args tm))
                             (sort_by_time due) |}.

(** The handler's invocations, in order, with their arguments. *)
Fixpoint handler_calls (tr : list TimerEvent) : list Args :=
  match tr with
  | [] => []
  | Fired _ args :: rest => args :: handler_calls rest
  | _ :: rest => handler_calls rest
  end.

(** The function [debounce(func, delay)] returns, with the variable
    [timeout] it closes over. *)
Record Debounced : Type := {
  delay : Z;
  timeout : option nat
}.

Definition debounce (d : Z) : Debounced := {| delay := d; timeout := None |}.

(** One call of the wrapped function. *)
Definition call (args : Args) (s : Debounced * Loop) : Debounced * Loop :=
  let '(f, l) := s in
  let l1 := clearTimeout (timeout f) l in
  let '(id, l2) := setTimeout args (delay f) l1 in
  ({| delay := delay f; timeout := Some id |}, l2).

(** The wrapped function is called with [args] when the clock shows [t],
    in a task of its own: the timers due before have run by then.  A timer
    due at [t] itself is run here too, which the code does not promise (and
    does not do for two calls in one task); the properties below use calls
    that come at no such instant, or that clear no timer. *)
Definition call_at (t : Z) (args : Args) (s : Debounced * Loop)
  : Debounced * Loop :=
  call args (fst s, advance_to t (snd s)).

Definition run_calls (calls : list (Z * Args)) (s : Debounced * Loop)
  : Debounced * Loop :=
  fold_left (fun acc c => call_at (fst c) (snd c) acc) calls s.

(** Calls in quick succession: each one comes less than [d] after the
    one before it. *)
Fixpoint rapid_after (d prev : Z) (calls : list (Z * Args)) : bool :=
  match calls with
  | [] => true
  | (t, _) :: rest => (prev <=? t) && (t <? prev + d) && rapid_after d t rest
  end.

Definition rapid (d t0 : Z) (calls : list (Z * Args)) : bool :=
  match calls with
  | [] => true
  | (t, _) :: rest => (t0 <=? t) && rapid_after d t rest
  end.

(** What holds between two calls of a burst, for a delay [d]: the timer of
    the latest call, numbered [n] and set at [t] with [a], is the only one
    waiting; since the burst began, with timer [n0] and the trace [base],
    the events [added] have happened: the handler has not run, and the
    timers of the calls before were set and cleared. *)
Record waiting (d : Z) (n0 n : nat) (t : Z) (a : Args)
       (base added : list TimerEvent) (s : Debounced * Loop) : Prop := {
  w_delay : delay (fst s) = d;
  w_timeout : timeout (fst s) = Some n;
  w_now : now (snd s) = t;
  w_next : next_id (snd s) = S n;
  w_pending : pending (snd s) =
              [{| timer_id := n; fire_at := t + d; timer_args := a |}];
  w_trace : trace (snd s) = base ++ added;
  w_quiet : forall i x, ~ In (Fired i x) added;
  w_cleared : forall i, (n0 <= i < n)%nat -> In (Cleared i) added;
  w_scheduled : forall i, (n0 <= i <= n)%nat ->
                          exists due, In (Scheduled i due) added
}.

End Loop.

Arguments Timer : clear implicits.
Arguments TimerEvent : clear implicits.
Arguments Loop : clear implicits.

End Timers.

(** ** The lookup API ([API.get('/word', ...)]) as both screens see it *)

Module Lookup.

(** [interface DictionaryEntry]; [linga], [vyakhya], [sandarbha] and
    [marathi_artha] stand for the fields written with vowel signs in the
    source. *)
Record DictionaryEntry : Type := {
  _id : string;
  पद : string;
  linga : option string;
  vyakhya : option string;
  sandarbha : option string;
  marathi_artha : option string
}.

(** [params: { word, filter }] of the request. *)
Record RequestParams : Type := {
  param_word : string;
  param_filter : option string
}.

(** [response.data]: whether [success] is truthy, and [results] when the
    field is there. *)
Record ResponseData : Type := {
  success : bool;
  results : option (list DictionaryEntry)
}.

Record Response : Type := {
  data : option ResponseData
}.

Inductive Outcome : Type :=
| Rejects
| Resolves (response : Response).

(** The module [../utils/api] is imported, not defined, by the two screens:
    the answer to each request is left open. *)
Definition API : Type := RequestParams -> Outcome.

(** The request threw, or the answer does not carry a truthy [success]. *)
Definition failed (o : Outcome) : bool :=
  match o with
  | Rejects => true
  | Resolves response =>
      match data response with
      | Some d => negb (success d)
      | None => true
      end
  end.

End Lookup.

Import Lookup.

(** ** The home screen (index.tsx) *)

Module Home.

Local Open Scope list_scope.
Local Open Scope act_scope.

Record State : Type := {
  word : string;
  suggestions : list DictionaryEntry;
  history : list string;
  selectedFilter : option string;
  isSearching : bool
}.

(** The values given to [useState] at mount. *)
Definition initial : State :=
  {| word := EmptyString;
     suggestions := [];
     history := [];
     selectedFilter := None;
     isSearching := false |}.

Inductive Effect : Type :=
| SetWord (text : string)
| SetSuggestions (entries : list DictionaryEntry)
| SetHistory (value : JSValue)
| SetSelectedFilter (tag : option string)
| SetIsSearching (flag : bool)
| ApiGet (params : RequestParams)
| ConsoleError (error : JSError)
| StorageSetItem (key value : string).

(** The state the next render shows, and the content of AsyncStorage. *)
Record World : Type := {
  state : State;
  storage : gmap string string
}.

Definition with_state (w : World) (s : State) : World :=
  {| state := s; storage := storage w |}.

(** One effect on the world.  [setHistory] takes what [JSON.parse] gave;
    there is no next state of type [string[]] when that is not an array of
    strings. *)
Definition apply_effect (w : World) (e : Effect) : option World :=
  let s := state w in
  match e with
  | SetWord text =>
      Some (with_state w {| word := text; suggestions := suggestions s;
                            history := history s;
                            selectedFilter := selectedFilter s;
                            isSearching := isSearching s |})
  | SetSuggestions entries =>
      Some (with_state w {| word := word s; suggestions := entries;
                            history := history s;
                            selectedFilter := selectedFilter s;
                            isSearching := isSearching s |})
  | SetHistory value =>
      match as_string_array value with
      | Some terms =>
          Some (with_state w {| word := word s; suggestions := suggestions s;
                                history := terms;
                                selectedFilter := selectedFilter s;
                                isSearching := isSearching s |})
      | None => None
      end
  | SetSelectedFilter tag =>
      Some (with_state w {| word := word s; suggestions := suggestions s;
                            history := history s;
                            selectedFilter := tag;
                            isSearching := isSearching s |})
  | SetIsSearching flag =>
      Some (with_state w {| word := word s; suggestions := suggestions s;
                            history := history s;
                            selectedFilter := selectedFilter s;
                            isSearching := flag |})
  | ApiGet _ => Some w
  | ConsoleError _ => Some w
  | StorageSetItem key value =>
      Some {| state := s; storage := <[key := value]> (storage w) |}
  end.

Fixpoint apply_effects (es : list Effect) (w : World) : option World :=
  match es with
  | [] => Some w
  | e :: rest =>
      match apply_effect w e with
      | Some w' => apply_effects rest w'
      | None => None
      end
  end.

(** A handler belongs to the render that created it and reads that
    render's state; its effects decide the next one. *)
Definition dispatch (handler : State -> Act Effect unit) (w : World)
  : option World :=
  apply_effects (effects (handler (state w))) w.

(** [await API.get('/word', { params })] *)
Definition API_get (api : API) (params : RequestParams) : Act Effect Response :=
  emit (ApiGet params) ;;
  match api params with
  | Rejects => throw RequestFailed
  | Resolves response => ret response
  end.

(** [response.data.success] and [response.data.results] read a property of
    [response.data]. *)
Definition response_data (response : Response) : Act Effect ResponseData :=
  match data response with
  | Some d => ret d
  | None => throw TypeError
  end.

(** [JSON.parse(stored)]: the parsed value, or a [SyntaxError].  The parser
    never stops for lack of budget ([JSON_parse_answers] below), so the last
    case does not occur. *)
Definition parse_json (stored : string) : Act Effect JSValue :=
  match JSON_parse stored with
  | Parsed v _ => ret v
  | Invalid => throw SyntaxError
  | OutOfFuel => throw SyntaxError
  end.

(** [loadHistory] (index.tsx, lines 49-52): [getItem] gives [null] for a
    key that is not there, and [if (stored)] also skips the empty string. *)
Definition loadHistory (store : gmap string string) : Act Effect unit :=
  match store !! "searchHistory" with
  | Some stored =>
      if falsy stored then ret tt
      else (parsed <- parse_json stored ;; emit (SetHistory parsed))
  | None => ret tt
  end.

(** [saveToHistory] (index.tsx, lines 54-58); [history] is the one of the
    render. *)
Definition saveToHistory (term : string) (snap : State) : Act Effect unit :=
  let updated :=
    firstn 5 (term :: List.filter (fun item => negb (String.eqb item term))
                                  (history snap)) in
  emit (SetHistory (of_strings updated)) ;;
  emit (StorageSetItem "searchHistory" (JSON_stringify updated)).

(** [fetchSuggestions] (index.tsx, lines 60-86); [selectedFilter] is the
    one of the render. *)
Definition fetchSuggestions (api : API) (input : string) (snap : State)
  : Act Effect unit :=
  if falsy input then emit (SetSuggestions [])
  else
    emit (SetIsSearching true) ;;
    try_finally
      (try_catch
         (response <- API_get api {| param_word := input;
                                     param_filter := or_undefined (selectedFilter snap) |} ;;
          d <- response_data response ;;
          if success d
          then emit (SetSuggestions (or_empty (results d)))
          else emit (SetSuggestions []))
         (fun error => emit (ConsoleError error) ;; emit (SetSuggestions [])))
      (emit (SetIsSearching false)).

(** A call of an [async] function that is not awaited: its effects happen,
    its rejection does not reach the caller. *)
Definition detach {A : Type} (m : Act Effect A) : Act Effect unit :=
  (effects m, Normal tt).

(** [toggleFilter] (index.tsx, lines 114-120): [fetchSuggestions] here is
    the function of the same render, whatever [setSelectedFilter] asked
    for. *)
Definition toggleFilter (api : API) (filterName : string) (snap : State)
  : Act Effect unit :=
  let newFilter :=
    match selectedFilter snap with
    | Some active => if String.eqb active filterName then None else Some filterName
    | None => Some filterName
    end in
  emit (SetSelectedFilter newFilter) ;;
  if falsy (word snap) then ret tt
  else detach (fetchSuggestions api (word snap) snap).

(** The effect of [useEffect(..., [])] at mount. *)
Definition on_mount (store : gmap string string) : Act Effect unit :=
  detach (loadHistory store).

(** Searches confirmed one after the other, each from the render that
    shows the history left by the one before. *)
Definition record_all (terms : list string) (w : World) : option World :=
  fold_left (fun acc term =>
               match acc with
               | Some w' => dispatch (saveToHistory term) w'
               | None => None
               end)
            terms (Some w).

(** The requests a call sent to the lookup API. *)
Fixpoint requests (es : list Effect) : list RequestParams :=
  match es with
  | [] => []
  | ApiGet params :: rest => params :: requests rest
  | _ :: rest => requests rest
  end.

End Home.

(** ** The results screen (results.tsx) *)

Module Results.

Local Open Scope list_scope.
Local Open Scope act_scope.

(** [const { word, filter } = useLocalSearchParams()]; a parameter is a
    string or is missing. *)
Record RouteParams : Type := {
  word : option string;
  filter : option string
}.

Record State : Type := {
  results : list DictionaryEntry;
  loading : bool;
  favorites : list string
}.

(** The values given to [useState] at mount. *)
Definition initial : State :=
  {| results := []; loading := true; favorites := [] |}.

Inductive Effect : Type :=
| SetResults (entries : list DictionaryEntry)
| SetLoading (flag : bool)
| SetFavorites (value : JSValue)
| ApiGet (params : RequestParams)
| ConsoleError (error : JSError)
| StorageSetItem (key value : string).

Record World : Type := {
  state : State;
  storage : gmap string string
}.

Definition with_state (w : World) (s : State) : World :=
  {| state := s; storage := storage w |}.

Definition apply_effect (w : World) (e : Effect) : option World :=
  let s := state w in
  match e with
  | SetResults entries =>
      Some (with_state w {| results := entries; loading := loading s;
                            favorites := favorites s |})
  | SetLoading flag =>
      Some (with_state w {| results := results s; loading := flag;
                            favorites := favorites s |})
  | SetFavorites value =>
      match as_string_array value with
      | Some terms =>
          Some (with_state w {| results := results s; loading := loading s;
                                favorites := terms |})
      | None => None
      end
  | ApiGet _ => Some w
  | ConsoleError _ => Some w
  | StorageSetItem key value =>
      Some {| state := s; storage := <[key := value]> (storage w) |}
  end.

Fixpoint apply_effects (es : list Effect) (w : World) : option World :=
  match es with
  | [] => Some w
  | e :: rest =>
      match apply_effect w e with
      | Some w' => apply_effects rest w'
      | None => None
      end
  end.

Definition dispatch (handler : State -> Act Effect unit) (w : World)
  : option World :=
  apply_effects (effects (handler (state w))) w.

Definition API_get (api : API) (params : RequestParams) : Act Effect Response :=
  emit (ApiGet params) ;;
  match api params with
  | Rejects => throw RequestFailed
  | Resolves response => ret response
  end.

Definition response_data (response : Response) : Act Effect ResponseData :=
  match data response with
  | Some d => ret d
  | None => throw TypeError
  end.

(** [JSON.parse(stored)], as on the home screen. *)
Definition parse_json (stored : string) : Act Effect JSValue :=
  match JSON_parse stored with
  | Parsed v _ => ret v
  | Invalid => throw SyntaxError
  | OutOfFuel => throw SyntaxError
  end.

(** [fetchResults] (results.tsx, lines 32-55) *)
Definition fetchResults (api : API) (route : RouteParams) : Act Effect unit :=
  match word route with
  | None => ret tt
  | Some w =>
      if falsy w then ret tt
      else
        emit (SetLoading true) ;;
        try_finally
          (try_catch
             (response <- API_get api {| param_word := w;
                                         param_filter := or_undefined (filter route) |} ;;
              d <- response_data response ;;
              if success d
              then emit (SetResults (or_empty (Lookup.results d)))
              else emit (SetResults []))
             (fun error => emit (ConsoleError error) ;; emit (SetResults [])))
          (emit (SetLoading false))
  end.

(** [loadFavorites] (results.tsx, lines 57-60) *)
Definition loadFavorites (store : gmap string string) : Act Effect unit :=
  match store !! "favorites" with
  | Some stored =>
      if falsy stored then ret tt
      else (parsed <- parse_json stored ;; emit (SetFavorites parsed))
  | None => ret tt
  end.

(** [toggleFavorite] (results.tsx, lines 62-68); [favorites] is the one of
    the render. *)
Definition toggleFavorite (term : string) (snap : State) : Act Effect unit :=
  let updated :=
    if existsb (String.eqb term) (favorites snap)
    then List.filter (fun item => negb (String.eqb item term)) (favorites snap)
    else favorites snap ++ [term] in
  emit (SetFavorites (of_strings updated)) ;;
  emit (StorageSetItem "favorites" (JSON_stringify updated)).

Definition detach {A : Type} (m : Act Effect A) : Act Effect unit :=
  (effects m, Normal tt).

(** The effect of [useEffect(..., [word, filter])]: both calls are made
    without [await]. *)
Definition on_mount (api : API) (route : RouteParams) (store : gmap string string)
  : Act Effect unit :=
  detach (loadFavorites store) ;; detach (fetchResults api route).

Fixpoint requests (es : list Effect) : list RequestParams :=
  match es with
  | [] => []
  | ApiGet params :: rest => params :: requests rest
  | _ :: rest => requests rest
  end.

End Results.

(** ** String.prototype.trim *)

Module JSString.

Local Open Scope list_scope.

Definition is_byte (n : N) (c : ascii) : bool := (N_of_ascii c =? n)%N.

(** White space and line terminators of one byte: TAB, LF, VT, FF, CR and
    the space. *)
Definition space1 (a : ascii) : bool :=
  let n := N_of_ascii a in (((9 <=? n) && (n <=? 13)) || (n =? 32))%N.

(** U+00A0, two bytes in UTF-8. *)
Definition space2 (a b : ascii) : bool := is_byte 194 a && is_byte 160 b.

(** U+1680, U+2000 to U+200A, U+2028, U+2029, U+202F, U+205F, U+3000 and
    U+FEFF, three bytes each in UTF-8. *)
Definition space3 (a b c : ascii) : bool :=
  let n := N_of_ascii c in
  (is_byte 225 a && is_byte 154 b && is_byte 128 c)
  || (is_byte 226 a && is_byte 128 b
      && (((128 <=? n) && (n <=? 138)) || (n =? 168) || (n =? 169) || (n =? 175))%N)
  || (is_byte 226 a && is_byte 129 b && is_byte 159 c)
  || (is_byte 227 a && is_byte 128 b && is_byte 128 c)
  || (is_byte 239 a && is_byte 187 b && is_byte 191 c).

Section Strip.

Variable w1 : ascii -> bool.
Variable w2 : ascii -> ascii -> bool.
Variable w3 : ascii -> ascii -> ascii -> bool.

(** Drops white space from the front, one character at a time. *)
Fixpoint strip (s : list ascii) : list ascii :=
  match s with
  | a :: r1 =>
      if w1 a then strip r1
      else
        match r1 with
        | b :: r2 =>
            if w2 a b then strip r2
            else
              match r2 with
              | c :: r3 => if w3 a b c then strip r3 else s
              | [] => s
              end
        | [] => s
        end
  | [] => []
  end.

End Strip.

Definition trimStart (s : string) : string :=
  string_of_list_ascii (strip space1 space2 space3 (list_ascii_of_string s)).

(** From the end the bytes of a character come in the opposite order. *)
Definition trimEnd (s : string) : string :=
  string_of_list_ascii
    (rev (strip space1 (fun b a => space2 a b) (fun c b a => space3 a b c)
                (rev (list_ascii_of_string s)))).

Definition trim (s : string) : string := trimEnd (trimStart s).

End JSString.

Import JSString.

(** ** The home screen: confirming a search, typing, what is shown
    (index.tsx) *)

Module HomeHandlers.

Local Open Scope list_scope.
Local Open Scope act_scope.

(** What a handler can ask for: what [Home.Effect] lists, and a move to
    another screen. *)
Inductive Effect : Type :=
| Screen (e : Home.Effect)
| RouterPush (pathname : string) (params : RequestParams).

Definition lift {A : Type} (m : Act Home.Effect A) : Act Effect A :=
  (map Screen (effects m), completion m).

Fixpoint screen_effects (es : list Effect) : list Home.Effect :=
  match es with
  | [] => []
  | Screen e :: rest => e :: screen_effects rest
  | RouterPush _ _ :: rest => screen_effects rest
  end.

Fixpoint pushes (es : list Effect) : list (string * RequestParams) :=
  match es with
  | [] => []
  | Screen _ :: rest => pushes rest
  | RouterPush pathname params :: rest => (pathname, params) :: pushes rest
  end.

Definition dispatch (handler : Home.State -> Act Effect unit) (w : Home.World)
  : option Home.World :=
  Home.apply_effects (screen_effects (effects (handler (Home.state w)))) w.

(** [handleSearch] (index.tsx, lines 90-100); [saveToHistory] is called
    without [await]. *)
Definition handleSearch (snap : Home.State) : Act Effect unit :=
  if falsy (trim (Home.word snap)) then ret tt
  else
    lift (Home.detach (Home.saveToHistory (trim (Home.word snap)) snap)) ;;
    emit (RouterPush "/results"
            {| param_word := trim (Home.word snap);
               param_filter := or_undefined (Home.selectedFilter snap) |}).

(** [handleSuggestionSelect] (index.tsx, lines 102-112) *)
Definition handleSuggestionSelect (item : DictionaryEntry) (snap : Home.State)
  : Act Effect unit :=
  emit (Screen (Home.SetWord (पद item))) ;;
  lift (Home.detach (Home.saveToHistory (पद item) snap)) ;;
  emit (RouterPush "/results"
          {| param_word := पद item;
             param_filter := or_undefined (Home.selectedFilter snap) |}).

(** [onPress] of an entry of the recent searches (index.tsx, lines
    191-194): [handleSearch] is the function of the render that drew the
    entry. *)
Definition onPressHistoryItem (item : string) (snap : Home.State) : Act Effect unit :=
  emit (Screen (Home.SetWord item)) ;;
  handleSearch snap.

(** [history.length > 0 && !word] (index.tsx, line 183): the recent searches
    are drawn. *)
Definition shows_history (s : Home.State) : bool :=
  (0 <? length (Home.history s))%nat && falsy (Home.word s).

(** The parameters [router.push] was given, as [useLocalSearchParams] hands
    them to the results screen: a parameter that is [undefined] is not
    there. *)
Definition route_of (params : RequestParams) : Results.RouteParams :=
  {| Results.word := Some (param_word params);
     Results.filter := param_filter params |}.

End HomeHandlers.

(** ** Typing: [debouncedFetch] and [onChangeText] (index.tsx, lines 88 and
    139-142) *)

Module Typing.

Local Open Scope Z_scope.
Local Open Scope list_scope.

(** [const debouncedFetch = debounce(fetchSuggestions, 500)] stands in the
    body of the component: each render makes a wrapped function of its own,
    with its own [timeout]. *)
Definition debouncedFetch : Timers.Debounced := Timers.debounce 500.

(** [onChangeText] in the render that is on screen when the clock shows [t]:
    [setWord(text)], and the call of that render's [debouncedFetch]. *)
Definition onChangeText (t : Z) (text : string) (l : Timers.Loop string)
  : list Home.Effect * Timers.Loop string :=
  ([Home.SetWord text], snd (Timers.call_at t text (debouncedFetch, l))).

(** Keystrokes with a render between each two of them, as [setWord] with a
    new text brings about. *)
Definition type_keys (keys : list (Z * string)) (l : Timers.Loop string)
  : Timers.Loop string :=
  fold_left (fun acc k => snd (onChangeText (fst k) (snd k) acc)) keys l.

(** Timers in the order of their times. *)
Definition by_time (x y : Timers.Timer string) : Prop := Timers.fire_at x <= Timers.fire_at y.


(** What holds between keystrokes: the timers wait in the order they were
    set, none was cleared, and the texts fetched or still waiting are the
    texts typed. *)
Record typed (t : Z) (texts : list string) (l : Timers.Loop string) : Prop := {
  ty_now : Timers.now l = t;
  ty_sorted : StronglySorted by_time (Timers.pending l);
  ty_bound : Forall (fun tm => Timers.fire_at tm <= t + 500) (Timers.pending l);
  ty_texts : Timers.handler_calls (Timers.trace l) ++ map Timers.timer_args (Timers.pending l) = texts;
  ty_kept : forall id, ~ In (Timers.Cleared id) (Timers.trace l)
}.

End Typing.

(** ** Calls of a debounced function in the order of time *)

Module Bursts.

Local Open Scope Z_scope.
Local Open Scope list_scope.

Section Calls.

Context {Args : Type}.

(** Each call comes no earlier than the one before. *)
Fixpoint in_order (prev : Z) (calls : list (Z * Args)) : bool :=
  match calls with
  | [] => true
  | (t, _) :: rest => (prev <=? t) && in_order t rest
  end.







Definition last_time (t0 : Z) (calls : list (Z * Args)) : Z :=
  fold_left (fun _ c => fst c) calls t0.


End Calls.

End Bursts.

(** ** Favourites over several presses, and what the results screen shows
    (results.tsx) *)

Module ResultsView.

Local Open Scope list_scope.

(** The list [toggleFavorite term] makes of the favourites [favs]. *)
Definition toggled (term : string) (favs : list string) : list string :=
  if existsb (String.eqb term) favs
  then List.filter (fun item => negb (String.eqb item term)) favs
  else favs ++ [term].

Definition toggle_all (terms : list string) (w : Results.World) : option Results.World :=
  fold_left (fun acc term =>
               match acc with
               | Some w' => Results.dispatch (Results.toggleFavorite term) w'
               | None => None
               end)
            terms (Some w).

(** The three things the screen can show (results.tsx, lines 87-153). *)
Inductive View : Type :=
| Spinner
| NoResults
| ResultCards (entries : list DictionaryEntry).

Definition view (s : Results.State) : View :=
  if Results.loading s then Spinner
  else if (length (Results.results s) =? 0)%nat then NoResults
  else ResultCards (Results.results s).

(** [favorites.includes(result.पद)] (results.tsx, lines 115-117): the heart
    of a card is filled. *)
Definition heart_filled (s : Results.State) (result : DictionaryEntry) : bool :=
  existsb (String.eqb (पद result)) (Results.favorites s).

(** The list a fetch ends with, read off the answer alone. *)
Definition answered (o : Outcome) : list DictionaryEntry :=
  match o with
  | Resolves {| data := Some d |} => if success d then or_empty (results d) else []
  | _ => []
  end.

End ResultsView.

(** * Properties *)

Local Open Scope list_scope.

(** ** JSON.parse always answers *)

Section ParseFacts.

Local Abbreviation len := String.length.

Lemma skip_ws_le (s : string) : len (skip_ws s) <= len s.
Proof.
  induction s as [|c s IH]; simpl; [lia|].
  destruct (is_ws c); simpl; lia.
Qed.

Lemma skip_ws_cons (s r : string) (c : ascii) :
  skip_ws s = String c r -> len r < len s.
Proof. intros H. pose proof (skip_ws_le s) as Hle. rewrite H in Hle. simpl in Hle. lia. Qed.

Lemma parse_chars_lt (n : nat) :
  forall (s r : string) (us : list StrUnit),
    len s <= n -> parse_chars s = Some (us, r) -> len r < len s.
Proof.
  induction n as [|n IH]; intros s r us Hn H.
  - destruct s; simpl in *; [discriminate | lia].
  - destruct s as [|c rest]; simpl in H; [discriminate|].
    simpl in Hn.
    repeat match type of H with
           | context [match ?x with _ => _ end] =>
               let E := fresh "E" in destruct x eqn:E; simpl in Hn; try discriminate
           end;
      injection H as ? ?; subst;
      try match goal with
          | E : parse_chars ?x = Some _ |- _ => apply IH in E; [|simpl; lia]
          end; simpl; lia.
Qed.

Lemma parse_string_lt (s r x : string) :
  parse_string s = Some (x, r) -> len r < len s.
Proof.
  unfold parse_string. destruct (parse_chars s) as [[us r']|] eqn:E; [|discriminate].
  intros [= _ <-]. exact (parse_chars_lt (len s) s r' us (le_n _) E).
Qed.

Lemma strip_prefix_le (p : string) :
  forall s r : string, strip_prefix p s = Some r -> len r <= len s.
Proof.
  induction p as [|a p IH]; intros s r H; simpl in H.
  - injection H as <-. lia.
  - destruct s as [|b s]; [discriminate|].
    destruct (Ascii.eqb a b); [|discriminate]. apply IH in H. simpl. lia.
Qed.

Lemma span_digits_le (s : string) : len (snd (span_digits s)) <= len s.
Proof.
  induction s as [|c s IH]; simpl; [lia|].
  destruct (is_digit c); simpl; [|lia].
  destruct (span_digits s) as [ds r]. simpl in *. lia.
Qed.

Lemma parse_number_lt (s r lexeme : string) :
  parse_number s = Some (lexeme, r) -> len r < len s.
Proof.
  unfold parse_number, parse_minus, parse_int, parse_frac, parse_exp, parse_sign.
  intros H.
  repeat match goal with
         | E : _ = Some _ |- _ => injection E as ? ?; subst
         | E : (_, _) = (_, _) |- _ => injection E as ? ?; subst
         | E : span_digits ?x = (_, ?y) |- _ =>
             let L := fresh "L" in
             pose proof (span_digits_le x) as L; rewrite E in L; simpl in L; clear E
         | E : context [match ?x with _ => _ end] |- _ =>
             let E' := fresh "E" in destruct x eqn:E'; try discriminate
         end;
    simpl in *; lia.
Qed.

(** Facts about the pieces of text the hypotheses mention. *)
Ltac text_facts :=
  repeat match goal with
         | E : skip_ws _ = String _ _ |- _ => apply skip_ws_cons in E
         | E : parse_string _ = Some _ |- _ => apply parse_string_lt in E
         | E : strip_prefix _ _ = Some _ |- _ => apply strip_prefix_le in E
         | E : parse_number _ = Some _ |- _ => apply parse_number_lt in E
         end.

Ltac break_hyp H :=
  repeat match type of H with
         | context [match ?x with _ => _ end] =>
             let E := fresh "E" in destruct x eqn:E; try discriminate H
         end.

(** What is read is taken from the front of the text. *)
Lemma parse_consumes (fuel : nat) :
  (forall s v r, parse_value fuel s = Parsed v r -> len r < len s) /\
  (forall s vs r, parse_elements fuel s = Parsed vs r -> len r < len s) /\
  (forall s ms r, parse_members fuel s = Parsed ms r -> len r < len s).
Proof.
  induction fuel as [|fuel [IHv [IHe IHm]]];
    [repeat split; intros; discriminate|].
  repeat split; intros s x r H; cbn [parse_value parse_elements parse_members] in H;
    break_hyp H; injection H as ? ?; subst;
    repeat match goal with
           | E : parse_value fuel _ = Parsed _ _ |- _ => apply IHv in E
           | E : parse_elements fuel _ = Parsed _ _ |- _ => apply IHe in E
           | E : parse_members fuel _ = Parsed _ _ |- _ => apply IHm in E
           end;
    text_facts; simpl in *; lia.
Qed.

Lemma parse_fuel_enough (fuel : nat) :
  (forall s, 2 * len s + 1 <= fuel -> parse_value fuel s <> OutOfFuel) /\
  (forall s, 2 * len s + 2 <= fuel -> parse_elements fuel s <> OutOfFuel) /\
  (forall s, 2 * len s + 2 <= fuel -> parse_members fuel s <> OutOfFuel).
Proof.
  induction fuel as [|fuel [IHv [IHe IHm]]]; [repeat split; intros; lia|].
  destruct (parse_consumes fuel) as [Cv [Ce Cm]].
  repeat split; intros s Hfuel H;
    cbn [parse_value parse_elements parse_members] in H;
    break_hyp H;
    repeat match goal with
           | E : parse_value fuel _ = Parsed _ _ |- _ => apply Cv in E
           | E : parse_elements fuel _ = Parsed _ _ |- _ => apply Ce in E
           | E : parse_members fuel _ = Parsed _ _ |- _ => apply Cm in E
           end;
    text_facts;
    match goal with
    | E : parse_value fuel _ = OutOfFuel |- _ => revert E; apply IHv
    | E : parse_elements fuel _ = OutOfFuel |- _ => revert E; apply IHe
    | E : parse_members fuel _ = OutOfFuel |- _ => revert E; apply IHm
    end; simpl in *; lia.
Qed.

(** [JSON.parse] gives a value or throws: the recursion budget it is run
    with is never the reason for a failure. *)
Lemma JSON_parse_answers (s : string) : JSON_parse s <> OutOfFuel.
Proof.
  unfold JSON_parse.
  destruct (parse_value (parse_fuel s) s) as [v r| |] eqn:E.
  - destruct (skip_ws r); discriminate.
  - discriminate.
  - exfalso. revert E. apply (parse_fuel_enough (parse_fuel s)).
    unfold parse_fuel. lia.
Qed.

End ParseFacts.

(** ** JSON.parse reads what JSON.stringify wrote *)

Section RoundTrip.

Local Abbreviation len := String.length.
#[local] Arguments String.append !_ _ /.

Lemma append_assoc (a b c : string) : ((a ++ b) ++ c = a ++ (b ++ c))%string.
Proof. induction a as [|x a IH]; simpl; [reflexivity|]. f_equal. exact IH. Qed.

Lemma decode_low_unit (n : N) (us : list StrUnit) :
  is_high_surrogate n = false ->
  decode_units (CodeUnit n :: us) = utf8_encode n ++ decode_units us.
Proof.
  intros Hn. simpl. destruct us as [|[c|lo] us]; try reflexivity.
  rewrite Hn. reflexivity.
Qed.

(** The text [quote_bytes] writes for a string reads back as its bytes. *)
Lemma parse_chars_quote_bytes (s rest : string) :
  exists us,
    parse_chars (quote_bytes s ++ String quote_char rest)%string = Some (us, rest) /\
    decode_units us = list_ascii_of_string s.
Proof.
  induction s as [|c s [us [Hp Hd]]].
  - exists []. split; reflexivity.
  - cbn [quote_bytes]. rewrite append_assoc.
    set (tail := (quote_bytes s ++ String quote_char rest)%string) in *.
    destruct c as [[|] [|] [|] [|] [|] [|] [|] [|]];
      vm_compute (quote_byte _); simpl; rewrite Hp;
      (eexists; split; [reflexivity|]);
      first [ simpl; rewrite Hd; reflexivity
            | rewrite decode_low_unit by reflexivity; rewrite Hd; reflexivity ].
Qed.

Lemma parse_string_quote (s rest : string) :
  parse_string (quote_bytes s ++ String quote_char rest)%string = Some (s, rest).
Proof.
  unfold parse_string.
  destruct (parse_chars_quote_bytes s rest) as [us [Hp Hd]].
  rewrite Hp, Hd, string_of_list_ascii_of_string. reflexivity.
Qed.

Lemma parse_value_quote_string (fuel : nat) (s rest : string) :
  parse_value (S fuel) (quote_string s ++ rest)%string = Parsed (JStr s) rest.
Proof.
  unfold quote_string. cbn [String.append parse_value].
  rewrite append_assoc. cbn [String.append].
  change (skip_ws (String quote_char ?t)) with (String quote_char t).
  cbv beta iota.
  change (Ascii.eqb quote_char "[") with false.
  change (Ascii.eqb quote_char "{") with false.
  change (Ascii.eqb quote_char quote_char) with true.
  cbv iota. rewrite parse_string_quote. reflexivity.
Qed.

Lemma parse_elements_step (fuel : nat) (s : string) :
  parse_elements (S fuel) s =
  match parse_value fuel s with
  | Parsed v r =>
      match skip_ws r with
      | String c r' =>
          if Ascii.eqb c "," then
            match parse_elements fuel r' with
            | Parsed vs r'' => Parsed (v :: vs) r''
            | Invalid => Invalid
            | OutOfFuel => OutOfFuel
            end
          else if Ascii.eqb c "]" then Parsed [v] r'
          else Invalid
      | EmptyString => Invalid
      end
  | Invalid => Invalid
  | OutOfFuel => OutOfFuel
  end.
Proof. reflexivity. Qed.

Lemma parse_elements_strings (xs : list string) :
  forall (fuel : nat) (x : string) (rest : string),
    length xs + 2 <= fuel ->
    parse_elements fuel
      (join_commas (map quote_string (x :: xs)) ++ String "]" rest)%string
    = Parsed (map JStr (x :: xs)) rest.
Proof.
  induction xs as [|y xs IH]; intros [|[|fuel]] x rest Hfuel; simpl in Hfuel; try lia;
    rewrite parse_elements_step.
  - cbn [map join_commas].
    rewrite parse_value_quote_string. reflexivity.
  - change (join_commas (map quote_string (x :: y :: xs)))
      with (quote_string x ++ "," ++ join_commas (map quote_string (y :: xs)))%string.
    rewrite !append_assoc.
    rewrite parse_value_quote_string.
    cbn [String.append]. cbn [skip_ws]. change (is_ws ",") with false. cbv iota.
    change (Ascii.eqb "," ",") with true. cbv iota.
    rewrite IH by (simpl; lia). reflexivity.
Qed.

Lemma length_append (a b : string) : len (a ++ b)%string = len a + len b.
Proof. induction a as [|c a IH]; simpl; [reflexivity|]. rewrite IH. reflexivity. Qed.

Lemma length_join_commas (xs : list string) :
  length xs <= len (join_commas (map quote_string xs)).
Proof.
  induction xs as [|x [|y xs] IH]; simpl in *; [lia | lia |].
  rewrite !length_append in *. simpl in *. lia.
Qed.

(** What [JSON.stringify] writes for an array of strings, [JSON.parse]
    reads back as that array. *)
Lemma JSON_parse_stringify (xs : list string) :
  JSON_parse (JSON_stringify xs) = Parsed (of_strings xs) EmptyString.
Proof.
  destruct xs as [|x xs]; [reflexivity|].
  unfold JSON_parse, JSON_stringify, parse_fuel.
  set (body := join_commas (map quote_string (x :: xs))).
  assert (Hlen : length (x :: xs) <= len body) by apply length_join_commas.
  cbn [String.append]. cbn [String.length]. rewrite length_append. simpl length in Hlen.
  replace (2 * S (len body + len "]") + 1) with (S (S (S (2 * (len body + len "]")))))
    by lia.
  cbn [parse_value skip_ws]. change (is_ws "[") with false. cbv iota.
  change (Ascii.eqb "[" "[") with true. cbv iota.
  assert (Hfirst : exists c t, skip_ws (body ++ "]")%string = String c t /\ Ascii.eqb c "]" = false).
  { subst body. destruct xs as [|y xs]; cbn [map join_commas]; unfold quote_string;
      cbn [String.append]; do 2 eexists; split; reflexivity. }
  destruct Hfirst as [c [t [Hs Hc]]]. rewrite Hs, Hc.
  subst body. rewrite parse_elements_strings by lia. reflexivity.
Qed.

End RoundTrip.

(** ** The debounced function *)

Section DebounceFacts.

Import Timers.
Context {Args : Type}.
Variable d : Z.
Variable n0 : nat.
Variable base : list (TimerEvent Args).

Local Open Scope Z_scope.
Local Open Scope list_scope.

Lemma handler_calls_app (tr1 tr2 : list (TimerEvent Args)) :
  handler_calls (tr1 ++ tr2) = handler_calls tr1 ++ handler_calls tr2.
Proof.
  induction tr1 as [|ev tr1 IH]; simpl; [reflexivity|].
  destruct ev; simpl; rewrite ?IH; reflexivity.
Qed.

(** With no timer waiting, [clearTimeout] does nothing, whatever handle the
    function still holds. *)
Lemma clearTimeout_idle (h : option nat) (l : Loop Args) :
  pending l = [] -> clearTimeout h l = l.
Proof.
  intros Hp. destruct h as [id|]; [|reflexivity].
  unfold clearTimeout, is_pending. rewrite Hp. reflexivity.
Qed.

Lemma advance_idle (t : Z) (l : Loop Args) :
  pending l = [] ->
  advance_to t l =
  {| now := Z.max (now l) t; next_id := next_id l; pending := []; trace := trace l |}.
Proof.
  intros Hp. unfold advance_to. rewrite Hp. simpl. rewrite app_nil_r. reflexivity.
Qed.

(** The first call of a burst, made when no timer is waiting. *)
Lemma first_call_waits (f : Debounced) (l0 : Loop Args) (t : Z) (a : Args) :
  delay f = d -> pending l0 = [] -> next_id l0 = n0 -> trace l0 = base ->
  now l0 <= t ->
  waiting d n0 n0 t a base [Scheduled n0 (t + d)] (call_at t a (f, l0)).
Proof.
  intros Hd Hp Hn Hb Ht. unfold call_at, call. cbn [fst snd].
  rewrite (advance_idle t l0 Hp), clearTimeout_idle by reflexivity.
  unfold setTimeout. cbn [now next_id pending trace]. rewrite Hd, Hn, Hb.
  rewrite Z.max_r by lia.
  split; simpl; try reflexivity.
  - intros i x [H|[]]. discriminate H.
  - intros i Hi. lia.
  - intros i Hi. assert (i = n0) by lia. subst i. eauto.
Qed.

Lemma next_call_waits (n : nat) (t t' : Z) (a a' : Args)
      (added : list (TimerEvent Args)) (s : Debounced * Loop Args) :
  waiting d n0 n t a base added s -> t <= t' < t + d ->
  waiting d n0 (S n) t' a' base
          (added ++ [Cleared n; Scheduled (S n) (t' + d)]) (call_at t' a' s).
Proof.
  intros [Hd Hto Hnow Hnext Hpend Htr Hquiet Hclr Hsch] Ht.
  destruct s as [f l]; simpl in *.
  unfold call_at, call; simpl.
  assert (Hadv : advance_to t' l =
                 {| now := t'; next_id := S n; pending := pending l; trace := trace l |}).
  { unfold advance_to. rewrite Hpend; simpl.
    destruct (Z.leb_spec (t + d) t') as [Hle|Hgt]; [lia|]. simpl.
    rewrite Hnow, Hnext, app_nil_r. f_equal. lia. }
  rewrite Hadv, Hto. unfold clearTimeout, is_pending; simpl.
  rewrite Hpend; simpl. rewrite Nat.eqb_refl; simpl.
  rewrite Hd, Htr. split; simpl; try reflexivity.
  - rewrite <- !app_assoc. reflexivity.
  - intros i x Hin. apply in_app_or in Hin as [Hin|[Hin|[Hin|[]]]];
      [exact (Hquiet i x Hin) | discriminate Hin | discriminate Hin].
  - intros i Hi. apply in_or_app.
    destruct (Nat.eq_dec i n) as [->|Hne].
    + right; left; reflexivity.
    + left. apply Hclr; lia.
  - intros i Hi.
    destruct (Nat.eq_dec i (S n)) as [->|Hne].
    + eexists. apply in_or_app; right; right; left; reflexivity.
    + destruct (Hsch i) as [due Hdue]; [lia|].
      exists due. apply in_or_app; left. exact Hdue.
Qed.

Lemma burst_waits (earlier : list (Z * Args)) (t' : Z) (a' : Args) :
  forall (n : nat) (t : Z) (a : Args) (added : list (TimerEvent Args))
         (s : Debounced * Loop Args),
    waiting d n0 n t a base added s ->
    rapid_after d t (earlier ++ [(t', a')]) = true ->
    exists added',
      waiting d n0 (n + S (length earlier)) t' a' base added'
              (run_calls (earlier ++ [(t', a')]) s).
Proof.
  induction earlier as [|[t1 a1] earlier IH]; intros n t a added s Hw Hr;
    simpl in Hr; apply andb_prop in Hr as [Hr Hrest];
    apply andb_prop in Hr as [H1 H2];
    apply Z.leb_le in H1; apply Z.ltb_lt in H2.
  - simpl. rewrite Nat.add_1_r. eexists.
    apply (next_call_waits n t t' a a' added s Hw). lia.
  - pose proof (next_call_waits n t t1 a a1 added s Hw (conj H1 H2)) as Hw'.
    destruct (IH (S n) t1 a1 _ _ Hw' Hrest) as [added' IH'].
    exists added'.
    replace (n + S (length ((t1, a1) :: earlier)))%nat
      with (S n + S (length earlier))%nat by (simpl; lia).
    exact IH'.
Qed.

Lemma waiting_timer_fires (n : nat) (t T : Z) (a : Args)
      (added : list (TimerEvent Args)) (s : Debounced * Loop Args) :
  waiting d n0 n t a base added s -> t + d <= T ->
  pending (advance_to T (snd s)) = [] /\
  trace (advance_to T (snd s)) = base ++ (added ++ [Fired n a]).
Proof.
  intros [Hd Hto Hnow Hnext Hpend Htr Hquiet Hclr Hsch] HT.
  unfold advance_to. rewrite Hpend; simpl.
  destruct (Z.leb_spec (t + d) T) as [Hle|Hgt]; [|lia]. simpl.
  rewrite Htr, <- app_assoc. split; reflexivity.
Qed.

Lemma quiet_no_calls (tr : list (TimerEvent Args)) :
  (forall i x, ~ In (Fired i x) tr) -> handler_calls tr = [].
Proof.
  induction tr as [|ev tr IH]; intros H; [reflexivity|].
  destruct ev; simpl; try (apply IH; intros i x Hin; apply (H i x); right; exact Hin).
  exfalso. apply (H id args). left; reflexivity.
Qed.

End DebounceFacts.

(** C1. Calls of a function returned by [debounce(handler, 500)] that
    follow each other by less than the delay, begun at any time no timer is
    waiting (on a new function, or after earlier bursts were answered):
    once the delay has passed after the last call, the handler has run
    exactly once more, with the arguments of the last call; every call set
    a timer, and the timer of every call but the last was cleared and
    never ran. *)
Theorem debounce_burst_runs_last_call_once {Args : Type}
    (f : Timers.Debounced) (l0 : Timers.Loop Args)
    (earlier : list (Z * Args)) (t : Z) (args : Args) (T : Z) :
  Timers.delay f = 500%Z ->
  Timers.pending l0 = [] ->
  Timers.rapid 500 (Timers.now l0) (earlier ++ [(t, args)])%list = true ->
  (t + 500 <= T)%Z ->
  let n0 := Timers.next_id l0 in
  let l := Timers.advance_to T
             (snd (Timers.run_calls (earlier ++ [(t, args)])%list (f, l0))) in
  Timers.handler_calls (Timers.trace l)
  = (Timers.handler_calls (Timers.trace l0) ++ [args])%list /\
  Timers.pending l = [] /\
  exists added,
    Timers.trace l = (Timers.trace l0 ++ added)%list /\
    Timers.handler_calls added = [args] /\
    In (Timers.Fired (n0 + length earlier) args) added /\
    forall i, i < length earlier ->
              (exists due, In (Timers.Scheduled (n0 + i) due) added) /\
              In (Timers.Cleared (n0 + i)) added /\
              forall x, ~ In (Timers.Fired (n0 + i) x) added.
Proof.
  intros Hd Hp0 Hrapid HT n0 l.
  assert (Hw : exists added,
             Timers.waiting 500 n0 (n0 + length earlier) t args (Timers.trace l0) added
               (Timers.run_calls (earlier ++ [(t, args)])%list (f, l0))).
  { destruct earlier as [|[t1 a1] rest]; simpl in Hrapid;
      apply andb_prop in Hrapid as [H0 Hrest]; apply Z.leb_le in H0.
    - simpl. rewrite Nat.add_0_r. eexists.
      apply first_call_waits; [exact Hd | exact Hp0 | reflexivity | reflexivity | exact H0].
    - change (Timers.run_calls (((t1, a1) :: rest) ++ [(t, args)])%list (f, l0))
        with (Timers.run_calls (rest ++ [(t, args)])%list
                (Timers.call_at t1 a1 (f, l0))).
      simpl length.
      apply (burst_waits 500 n0 (Timers.trace l0) rest t args n0 t1 a1
                         [Timers.Scheduled n0 (t1 + 500)]).
      + apply first_call_waits;
          [exact Hd | exact Hp0 | reflexivity | reflexivity | exact H0].
      + exact Hrest. }
  destruct Hw as [added Hw].
  destruct (waiting_timer_fires 500 n0 _ _ t T args added _ Hw HT) as [Hpend Htrace].
  destruct Hw as [_ _ _ _ _ _ Hquiet Hclr Hsch].
  assert (Hcalls : Timers.handler_calls (added ++ [Timers.Fired (n0 + length earlier) args])
                   = [args]).
  { rewrite handler_calls_app, (quiet_no_calls _ Hquiet). reflexivity. }
  subst l. rewrite Hpend, Htrace.
  split; [|split; [reflexivity|]].
  - rewrite handler_calls_app, Hcalls. reflexivity.
  - exists (added ++ [Timers.Fired (n0 + length earlier) args])%list.
    split; [reflexivity|]. split; [exact Hcalls|]. split.
    + apply in_or_app. right. left. reflexivity.
    + intros i Hi. split; [|split].
      * destruct (Hsch (n0 + i)) as [due Hdue]; [lia|].
        exists due. apply in_or_app. left. exact Hdue.
      * apply in_or_app. left. apply Hclr. lia.
      * intros x Hin. apply in_app_or in Hin as [Hin|[Hin|[]]].
        -- exact (Hquiet _ _ Hin).
        -- inversion Hin. lia.
Qed.

(** A second burst of three keystrokes, 100 and 200 time units apart, on a
    function that has answered a first call already: it still holds the
    handle 0 of the timer that ran.  Looked at 500 units after the last
    keystroke. *)
Lemma debounce_burst_runs_last_call_once_witness :
  let f := {| Timers.delay := 500%Z; Timers.timeout := Some 0 |} in
  let l0 := {| Timers.now := 600%Z; Timers.next_id := 1; Timers.pending := [];
               Timers.trace := [Timers.Scheduled 0 500; Timers.Fired 0 "x"] |} in
  let l := Timers.advance_to 1500
             (snd (Timers.run_calls [(700%Z, "a"); (800%Z, "ab"); (1000%Z, "abc")]
                                    (f, l0))) in
  Timers.handler_calls (Timers.trace l) = ["x"; "abc"] /\
  Timers.pending l = [] /\
  exists added,
    Timers.trace l = (Timers.trace l0 ++ added)%list /\
    Timers.handler_calls added = ["abc"] /\
    In (Timers.Fired 3 "abc") added /\
    forall i, i < 2 ->
              (exists due, In (Timers.Scheduled (1 + i) due) added) /\
              In (Timers.Cleared (1 + i)) added /\
              forall x, ~ In (Timers.Fired (1 + i) x) added.
Proof.
  intros f l0.
  apply (debounce_burst_runs_last_call_once f l0
           [(700%Z, "a"); (800%Z, "ab")] 1000 "abc" 1500).
  - reflexivity.
  - reflexivity.
  - reflexivity.
  - lia.
Defined.

(** ** Lists of terms *)

Lemma as_strings_map (l : list string) : as_strings (map JStr l) = Some l.
Proof.
  induction l as [|x l IH]; simpl; [reflexivity|]. rewrite IH. reflexivity.
Qed.

Lemma as_strings_of_strings (l : list string) :
  as_string_array (of_strings l) = Some l.
Proof. apply as_strings_map. Qed.

Lemma filter_differs_remove (term : string) (l : list string) :
  List.filter (fun item => negb (String.eqb item term)) l = remove string_dec term l.
Proof.
  induction l as [|x l IH]; simpl; [reflexivity|].
  destruct (string_dec term x) as [->|Hne].
  - rewrite String.eqb_refl. simpl. exact IH.
  - destruct (String.eqb_spec x term) as [->|_]; [congruence|].
    simpl. rewrite IH. reflexivity.
Qed.

Lemma filter_differs_In (term x : string) (l : list string) :
  In x (List.filter (fun item => negb (String.eqb item term)) l) <-> In x l /\ x <> term.
Proof.
  rewrite filter_In. split; intros [Hin Hne]; split; try exact Hin.
  - intros ->. rewrite String.eqb_refl in Hne. discriminate.
  - destruct (String.eqb_spec x term); [contradiction | reflexivity].
Qed.

Lemma includes_In (term : string) (l : list string) :
  existsb (String.eqb term) l = true <-> In term l.
Proof.
  rewrite existsb_exists. split.
  - intros [x [Hin Heq]]. apply String.eqb_eq in Heq. subst x. exact Hin.
  - intros Hin. exists term. split; [exact Hin | apply String.eqb_refl].
Qed.

Lemma firstn_NoDup {A : Type} (n : nat) (l : list A) :
  List.NoDup l -> List.NoDup (firstn n l).
Proof.
  revert n. induction l as [|x l IH]; intros [|n] H; simpl; try constructor.
  - inversion H as [|? ? Hx Hl]; subst. intros Hin. apply Hx.
    rewrite <- (firstn_skipn n l). apply in_or_app. left. exact Hin.
  - inversion H; subst. apply IH. assumption.
Qed.

Lemma updated_history_NoDup (term : string) (h : list string) :
  List.NoDup h ->
  List.NoDup (firstn 5 (term :: List.filter (fun item => negb (String.eqb item term)) h)).
Proof.
  intros H. apply firstn_NoDup. constructor.
  - rewrite filter_differs_In. intros [_ Hne]. congruence.
  - apply List.NoDup_filter. exact H.
Qed.

(** ** Loading what is stored *)

Lemma stringify_truthy (terms : list string) : falsy (JSON_stringify terms) = false.
Proof. reflexivity. Qed.

Lemma loadHistory_reads_back (store : gmap string string) (terms : list string) :
  store !! "searchHistory" = Some (JSON_stringify terms) ->
  Home.loadHistory store = ([Home.SetHistory (of_strings terms)], Normal tt).
Proof.
  intros H. unfold Home.loadHistory, Home.parse_json.
  rewrite H, stringify_truthy, JSON_parse_stringify. reflexivity.
Qed.

Lemma loadFavorites_reads_back (store : gmap string string) (terms : list string) :
  store !! "favorites" = Some (JSON_stringify terms) ->
  Results.loadFavorites store = ([Results.SetFavorites (of_strings terms)], Normal tt).
Proof.
  intros H. unfold Results.loadFavorites, Results.parse_json.
  rewrite H, stringify_truthy, JSON_parse_stringify. reflexivity.
Qed.

(** C8 (as the code has it). With nothing stored under its key a load ends
    normally and sets nothing, so the collection keeps the empty list it was
    created with; the text [saveToHistory] or [toggleFavorite] stored is
    loaded as the list it was written from; a stored text that is not JSON
    makes the load end with the [SyntaxError] of [JSON.parse], with no state
    set. *)
Theorem load_absent_or_saved_value (store : gmap string string) :
  (store !! "searchHistory" = None ->
   Home.loadHistory store = ([], Normal tt) /\
   Home.dispatch (fun _ => Home.loadHistory store)
                 {| Home.state := Home.initial; Home.storage := store |}
   = Some {| Home.state := Home.initial; Home.storage := store |}) /\
  (store !! "favorites" = None ->
   Results.loadFavorites store = ([], Normal tt) /\
   Results.dispatch (fun _ => Results.loadFavorites store)
                    {| Results.state := Results.initial; Results.storage := store |}
   = Some {| Results.state := Results.initial; Results.storage := store |}) /\
  (forall terms,
      store !! "searchHistory" = Some (JSON_stringify terms) ->
      Home.loadHistory store = ([Home.SetHistory (of_strings terms)], Normal tt)) /\
  (forall terms,
      store !! "favorites" = Some (JSON_stringify terms) ->
      Results.loadFavorites store
      = ([Results.SetFavorites (of_strings terms)], Normal tt)) /\
  (forall stored,
      store !! "searchHistory" = Some stored -> falsy stored = false ->
      JSON_parse stored = Invalid ->
      Home.loadHistory store = ([], Throw SyntaxError)) /\
  (forall stored,
      store !! "favorites" = Some stored -> falsy stored = false ->
      JSON_parse stored = Invalid ->
      Results.loadFavorites store = ([], Throw SyntaxError)).
Proof.
  split; [|split; [|split; [|split; [|split]]]].
  - intros Habsent. unfold Home.dispatch, Home.loadHistory. rewrite Habsent.
    split; reflexivity.
  - intros Habsent. unfold Results.dispatch, Results.loadFavorites. rewrite Habsent.
    split; reflexivity.
  - intros terms. apply loadHistory_reads_back.
  - intros terms. apply loadFavorites_reads_back.
  - intros stored Hs Ht Hp. unfold Home.loadHistory, Home.parse_json.
    rewrite Hs, Ht, Hp. reflexivity.
  - intros stored Hs Ht Hp. unfold Results.loadFavorites, Results.parse_json.
    rewrite Hs, Ht, Hp. reflexivity.
Qed.

(** Nothing stored; a saved list under each key; a cut-off text under each
    key. *)
Lemma load_absent_or_saved_value_witness :
  (Home.loadHistory ∅ = ([], Normal tt) /\
   Results.loadFavorites ∅ = ([], Normal tt)) /\
  (Home.loadHistory {[ "searchHistory" := JSON_stringify ["अ"; "ब"] ]}
   = ([Home.SetHistory (of_strings ["अ"; "ब"])], Normal tt) /\
   Results.loadFavorites {[ "favorites" := JSON_stringify ["अश्वगंधा"] ]}
   = ([Results.SetFavorites (of_strings ["अश्वगंधा"])], Normal tt)) /\
  (Home.loadHistory {[ "searchHistory" := "[" ]} = ([], Throw SyntaxError) /\
   Results.loadFavorites {[ "favorites" := "[" ]} = ([], Throw SyntaxError)).
Proof.
  split; [|split]; split.
  - apply (load_absent_or_saved_value ∅). reflexivity.
  - apply (load_absent_or_saved_value ∅). reflexivity.
  - apply (load_absent_or_saved_value
             {[ "searchHistory" := JSON_stringify ["अ"; "ब"] ]}).
    reflexivity.
  - apply (load_absent_or_saved_value
             {[ "favorites" := JSON_stringify ["अश्वगंधा"] ]}).
    reflexivity.
  - apply (load_absent_or_saved_value {[ "searchHistory" := "[" ]} ) with (stored := "[");
      reflexivity.
  - apply (load_absent_or_saved_value {[ "favorites" := "[" ]} ) with (stored := "[");
      reflexivity.
Defined.

(** C8 as stated fails: a stored text that is not JSON makes each load end
    with an exception, and the stored text [null] makes [loadHistory] set
    the history to [null], which is not the empty list. *)
Lemma load_corrupt_value_throws :
  JSON_parse "[" = Invalid /\
  completion (Home.loadHistory {[ "searchHistory" := "[" ]}) = Throw SyntaxError /\
  completion (Results.loadFavorites {[ "favorites" := "[" ]}) = Throw SyntaxError /\
  Home.loadHistory {[ "searchHistory" := "null" ]} = ([Home.SetHistory JNull], Normal tt) /\
  Home.dispatch (fun _ => Home.loadHistory {[ "searchHistory" := "null" ]})
                {| Home.state := Home.initial;
                   Home.storage := {[ "searchHistory" := "null" ]} |} = None.
Proof. repeat (split; [reflexivity|]). reflexivity. Qed.

(** ** The search history *)

Section HistoryFacts.

Import Home.

Lemma saveToHistory_dispatch (term : string) (w : World) :
  let updated :=
    firstn 5 (term :: List.filter (fun item => negb (String.eqb item term))
                                  (history (state w))) in
  dispatch (saveToHistory term) w =
  Some {| state := {| word := word (state w);
                      suggestions := suggestions (state w);
                      history := updated;
                      selectedFilter := selectedFilter (state w);
                      isSearching := isSearching (state w) |};
          storage := <["searchHistory" := JSON_stringify updated]> (storage w) |}.
Proof.
  intros updated. unfold dispatch, saveToHistory. fold updated.
  cbn [effects fst bind emit app apply_effects].
  unfold apply_effect at 1. rewrite as_strings_of_strings. reflexivity.
Qed.

Lemma record_all_cons (term : string) (terms : list string) (w : World) :
  record_all (term :: terms) w =
  match dispatch (saveToHistory term) w with
  | Some w' => record_all terms w'
  | None => None
  end.
Proof.
  unfold record_all. simpl.
  destruct (dispatch (saveToHistory term) w) as [w'|]; [reflexivity|].
  induction terms as [|x terms IH]; simpl; [reflexivity | exact IH].
Qed.

Lemma record_all_invariant (terms : list string) :
  forall w : World,
    length (history (state w)) <= 5 -> List.NoDup (history (state w)) ->
    exists w', record_all terms w = Some w' /\
               length (history (state w')) <= 5 /\
               List.NoDup (history (state w')).
Proof.
  induction terms as [|term terms IH]; intros w Hlen Hnd.
  - exists w. repeat split; assumption.
  - rewrite record_all_cons, saveToHistory_dispatch.
    apply IH; cbn [state history].
    + rewrite length_firstn. lia.
    + apply updated_history_NoDup. exact Hnd.
Qed.

End HistoryFacts.

(** C2. [saveToHistory term] gives the history with every occurrence of
    [term] removed, [term] put in front and the first 5 entries kept, sets
    the state to it and writes its JSON text under the key [searchHistory],
    from where [loadHistory] reads the same list back; six searches from the
    empty history leave the last five, latest first. *)
Theorem saveToHistory_moves_term_to_front (term : string) (w : Home.World) :
  let updated := firstn 5 (term :: remove string_dec term (Home.history (Home.state w))) in
  completion (Home.saveToHistory term (Home.state w)) = Normal tt /\
  Home.dispatch (Home.saveToHistory term) w =
    Some {| Home.state :=
              {| Home.word := Home.word (Home.state w);
                 Home.suggestions := Home.suggestions (Home.state w);
                 Home.history := updated;
                 Home.selectedFilter := Home.selectedFilter (Home.state w);
                 Home.isSearching := Home.isSearching (Home.state w) |};
            Home.storage :=
              <["searchHistory" := JSON_stringify updated]> (Home.storage w) |} /\
  Home.loadHistory (<["searchHistory" := JSON_stringify updated]> (Home.storage w))
  = ([Home.SetHistory (of_strings updated)], Normal tt) /\
  (Home.history (Home.state w) = [] ->
   exists w', Home.record_all ["अ"; "ब"; "क"; "ड"; "इ"; "फ"] w = Some w' /\
              Home.history (Home.state w') = ["फ"; "इ"; "ड"; "क"; "ब"] /\
              Home.storage w' !! "searchHistory"
              = Some (JSON_stringify ["फ"; "इ"; "ड"; "क"; "ब"])).
Proof.
  intros updated. split; [reflexivity|]. split; [|split].
  - rewrite saveToHistory_dispatch. unfold updated.
    rewrite filter_differs_remove. reflexivity.
  - apply loadHistory_reads_back, lookup_insert_eq.
  - intros Hempty.
    repeat (rewrite record_all_cons, saveToHistory_dispatch;
            cbn [Home.state Home.history Home.storage]).
    rewrite Hempty.
    eexists. split; [reflexivity|]. cbn [Home.state Home.history Home.storage].
    split; [reflexivity|]. rewrite lookup_insert_eq. reflexivity.
Qed.

(** The home screen just mounted, nothing stored yet. *)
Lemma saveToHistory_moves_term_to_front_witness :
  exists w', Home.record_all ["अ"; "ब"; "क"; "ड"; "इ"; "फ"]
               {| Home.state := Home.initial; Home.storage := ∅ |} = Some w' /\
             Home.history (Home.state w') = ["फ"; "इ"; "ड"; "क"; "ब"] /\
             Home.storage w' !! "searchHistory"
             = Some (JSON_stringify ["फ"; "इ"; "ड"; "क"; "ब"]).
Proof.
  pose proof (saveToHistory_moves_term_to_front
                "अ" {| Home.state := Home.initial; Home.storage := ∅ |}) as H.
  cbv zeta in H. destruct H as [_ [_ [_ H]]]. apply H. reflexivity.
Defined.

(** C4. Whatever searches are confirmed from the empty history, the history
    never holds more than 5 terms and never holds a term twice. *)
Theorem history_short_and_distinct (terms : list string) (w : Home.World) :
  Home.history (Home.state w) = [] ->
  exists w', Home.record_all terms w = Some w' /\
             length (Home.history (Home.state w')) <= 5 /\
             List.NoDup (Home.history (Home.state w')).
Proof.
  intros Hempty. apply record_all_invariant; rewrite Hempty; simpl.
  - lia.
  - constructor.
Qed.

Lemma history_short_and_distinct_witness :
  exists w', Home.record_all ["क"; "ख"; "क"; "ग"; "घ"; "ङ"; "च"; "ख"]
               {| Home.state := Home.initial; Home.storage := ∅ |} = Some w' /\
             length (Home.history (Home.state w')) <= 5 /\
             List.NoDup (Home.history (Home.state w')).
Proof.
  apply (history_short_and_distinct
           ["क"; "ख"; "क"; "ग"; "घ"; "ङ"; "च"; "ख"]
           {| Home.state := Home.initial; Home.storage := ∅ |}).
  reflexivity.
Defined.

(** ** Fetching suggestions and toggling the filter *)

Section FetchFacts.

Import Home.
Variable api : API.

Lemma fetchSuggestions_dispatch (c : ascii) (rest : string) (w : World) :
  let input := String c rest in
  let p := {| param_word := input;
              param_filter := or_undefined (selectedFilter (state w)) |} in
  dispatch (fetchSuggestions api input) w =
  Some {| state := {| word := word (state w);
                      suggestions := match api p with
                                     | Resolves {| data := Some d |} =>
                                         if success d then or_empty (results d) else []
                                     | _ => []
                                     end;
                      history := history (state w);
                      selectedFilter := selectedFilter (state w);
                      isSearching := false |};
          storage := storage w |}.
Proof.
  intros input p. unfold dispatch, fetchSuggestions, API_get. simpl falsy. cbv iota.
  fold p. destruct (api p) as [|[[[[|] rs]|]]]; reflexivity.
Qed.

Lemma fetchSuggestions_requests (c : ascii) (rest : string) (snap : State) :
  requests (effects (fetchSuggestions api (String c rest) snap)) =
  [{| param_word := String c rest;
      param_filter := or_undefined (selectedFilter snap) |}].
Proof.
  unfold fetchSuggestions, API_get. simpl falsy. cbv iota.
  match goal with |- context [api ?p] => destruct (api p) as [|[[[[|] rs]|]]] end;
    reflexivity.
Qed.

(** What [toggleFilter] leaves: the new filter in the state, and one
    request, made with the filter of the render the handler belongs to. *)
Lemma toggleFilter_dispatch (tag : string) (w : World) :
  exists w',
    dispatch (toggleFilter api tag) w = Some w' /\
    selectedFilter (state w') =
      match selectedFilter (state w) with
      | Some active => if String.eqb active tag then None else Some tag
      | None => Some tag
      end /\
    word (state w') = word (state w) /\
    history (state w') = history (state w) /\
    storage w' = storage w.
Proof.
  destruct w as [[wd sg h sf busy] st].
  unfold dispatch, toggleFilter; cbn [state word selectedFilter].
  destruct wd as [|c rest]; simpl falsy; cbv iota.
  - eexists. split; [reflexivity|]. repeat split.
  - unfold fetchSuggestions, API_get. simpl falsy. cbv iota.
    match goal with |- context [api ?p] => destruct (api p) as [|[[[[|] rs]|]]] end;
      (eexists; split; [reflexivity|]; repeat split).
Qed.

Lemma toggleFilter_requests (tag : string) (c : ascii) (rest : string) (snap : State) :
  word snap = String c rest ->
  requests (effects (toggleFilter api tag snap)) =
  [{| param_word := word snap; param_filter := or_undefined (selectedFilter snap) |}].
Proof.
  intros Hw. unfold toggleFilter. rewrite Hw. simpl falsy. cbv iota.
  rewrite <- (fetchSuggestions_requests c rest snap).
  unfold detach, bind, emit, effects.
  destruct (fetchSuggestions api (String c rest) snap) as [es cpl]. reflexivity.
Qed.

End FetchFacts.

(** C3. A fetch with a non-empty term sets the in-progress flag, then sends
    the request, and clears the flag last, whatever the answer; it ends
    without an exception; and when the request throws or the answer has no
    truthy [success], the list is left empty.  On the home screen this is
    [fetchSuggestions], on the results screen [fetchResults]. *)
Theorem fetch_clears_flag_and_survives_failure (api : API) :
  (forall (input : string) (w : Home.World),
      falsy input = false ->
      let p := {| param_word := input;
                  param_filter := or_undefined (Home.selectedFilter (Home.state w)) |} in
      let m := Home.fetchSuggestions api input (Home.state w) in
      completion m = Normal tt /\
      (exists body,
          effects m = [Home.SetIsSearching true; Home.ApiGet p] ++ body
                        ++ [Home.SetIsSearching false] /\
          Home.requests body = [] /\
          forall flag, ~ In (Home.SetIsSearching flag) body) /\
      exists w', Home.dispatch (Home.fetchSuggestions api input) w = Some w' /\
                 Home.isSearching (Home.state w') = false /\
                 (failed (api p) = true -> Home.suggestions (Home.state w') = [])) /\
  (forall (route : Results.RouteParams) (term : string) (w : Results.World),
      Results.word route = Some term ->
      falsy term = false ->
      let p := {| param_word := term;
                  param_filter := or_undefined (Results.filter route) |} in
      let m := Results.fetchResults api route in
      completion m = Normal tt /\
      (exists body,
          effects m = [Results.SetLoading true; Results.ApiGet p] ++ body
                        ++ [Results.SetLoading false] /\
          Results.requests body = [] /\
          forall flag, ~ In (Results.SetLoading flag) body) /\
      exists w', Results.dispatch (fun _ => Results.fetchResults api route) w = Some w' /\
                 Results.loading (Results.state w') = false /\
                 (failed (api p) = true -> Results.results (Results.state w') = [])).
Proof.
  split.
  - intros [|c rest] w Hne p m; [discriminate|].
    split; [|split].
    + subst m. unfold Home.fetchSuggestions, Home.API_get. simpl falsy. cbv iota.
      fold p. destruct (api p) as [|[[[[|] rs]|]]]; reflexivity.
    + subst m. unfold Home.fetchSuggestions, Home.API_get. simpl falsy. cbv iota.
      fold p. destruct (api p) as [|[[[[|] rs]|]]].
      * exists [Home.ConsoleError RequestFailed; Home.SetSuggestions []].
        split; [reflexivity|]. split; [reflexivity|].
        intros flag [H|[H|[]]]; discriminate H.
      * exists [Home.SetSuggestions (or_empty rs)].
        split; [reflexivity|]. split; [reflexivity|].
        intros flag [H|[]]; discriminate H.
      * exists [Home.SetSuggestions []].
        split; [reflexivity|]. split; [reflexivity|].
        intros flag [H|[]]; discriminate H.
      * exists [Home.ConsoleError TypeError; Home.SetSuggestions []].
        split; [reflexivity|]. split; [reflexivity|].
        intros flag [H|[H|[]]]; discriminate H.
    + rewrite fetchSuggestions_dispatch. fold p. eexists. split; [reflexivity|].
      split; [reflexivity|]. cbn [Home.state Home.suggestions].
      destruct (api p) as [|[[[[|] rs]|]]]; simpl; intros H;
        try reflexivity; discriminate H.
  - intros [wd flt] term w Hword Hne p m. simpl in Hword. subst wd.
    destruct term as [|c rest]; [discriminate|].
    subst m. unfold Results.dispatch, Results.fetchResults, Results.API_get.
    subst p. cbn [Results.word Results.filter]. simpl falsy. cbv iota.
    match goal with |- context [api ?q] => destruct (api q) as [|[[[[|] rs]|]]] end.
    + split; [reflexivity|]. split.
      * exists [Results.ConsoleError RequestFailed; Results.SetResults []].
        split; [reflexivity|]. split; [reflexivity|].
        intros flag [H|[H|[]]]; discriminate H.
      * eexists. split; [reflexivity|]. split; reflexivity.
    + split; [reflexivity|]. split.
      * exists [Results.SetResults (or_empty rs)].
        split; [reflexivity|]. split; [reflexivity|].
        intros flag [H|[]]; discriminate H.
      * eexists. split; [reflexivity|]. split; [reflexivity|].
        simpl. intros H; discriminate H.
    + split; [reflexivity|]. split.
      * exists [Results.SetResults []].
        split; [reflexivity|]. split; [reflexivity|].
        intros flag [H|[]]; discriminate H.
      * eexists. split; [reflexivity|]. split; reflexivity.
    + split; [reflexivity|]. split.
      * exists [Results.ConsoleError TypeError; Results.SetResults []].
        split; [reflexivity|]. split; [reflexivity|].
        intros flag [H|[H|[]]]; discriminate H.
      * eexists. split; [reflexivity|]. split; reflexivity.
Qed.

(** A request that throws, after the word "अ" was typed. *)
Lemma fetch_clears_flag_and_survives_failure_witness :
  let w := {| Home.state := Home.initial; Home.storage := ∅ |} in
  let m := Home.fetchSuggestions (fun _ => Rejects) "अ" (Home.state w) in
  completion m = Normal tt /\
  (exists body,
      effects m = [Home.SetIsSearching true;
                   Home.ApiGet {| param_word := "अ"; param_filter := None |}]
                    ++ body ++ [Home.SetIsSearching false] /\
      Home.requests body = [] /\
      forall flag, ~ In (Home.SetIsSearching flag) body) /\
  exists w', Home.dispatch (Home.fetchSuggestions (fun _ => Rejects) "अ") w = Some w' /\
             Home.isSearching (Home.state w') = false /\
             Home.suggestions (Home.state w') = [].
Proof.
  intros w m.
  destruct (proj1 (fetch_clears_flag_and_survives_failure (fun _ => Rejects))
                  "अ" w eq_refl) as [Hend [Htrace [w' [Hw' [Hflag Hlist]]]]].
  split; [exact Hend|]. split; [exact Htrace|].
  exists w'. split; [exact Hw'|]. split; [exact Hflag|]. apply Hlist. reflexivity.
Defined.

(** C9. [fetchSuggestions('')] sets the suggestions to the empty list and
    sends no request, whatever filter is selected. *)
Theorem fetchSuggestions_empty_input (api : API) (w : Home.World) :
  Home.fetchSuggestions api EmptyString (Home.state w)
  = ([Home.SetSuggestions []], Normal tt) /\
  Home.requests (effects (Home.fetchSuggestions api EmptyString (Home.state w))) = [] /\
  Home.dispatch (Home.fetchSuggestions api EmptyString) w =
    Some {| Home.state :=
              {| Home.word := Home.word (Home.state w);
                 Home.suggestions := [];
                 Home.history := Home.history (Home.state w);
                 Home.selectedFilter := Home.selectedFilter (Home.state w);
                 Home.isSearching := Home.isSearching (Home.state w) |};
            Home.storage := Home.storage w |}.
Proof. split; [reflexivity | split; reflexivity]. Qed.

(** C7. [toggleFilter tag] makes [tag] the active filter unless it is the
    active one already, and then leaves none active; so choosing a tag that
    is not active and choosing it again leaves no filter, and choosing
    another tag after it leaves that other tag alone. *)
Theorem toggleFilter_selects_or_clears (api : API) (w : Home.World) (a b : string) :
  (exists w1,
      Home.dispatch (Home.toggleFilter api a) w = Some w1 /\
      Home.selectedFilter (Home.state w1) =
        if decide (Home.selectedFilter (Home.state w) = Some a) then None else Some a) /\
  (Home.selectedFilter (Home.state w) <> Some a ->
   exists w1 w2,
     Home.dispatch (Home.toggleFilter api a) w = Some w1 /\
     Home.dispatch (Home.toggleFilter api a) w1 = Some w2 /\
     Home.selectedFilter (Home.state w1) = Some a /\
     Home.selectedFilter (Home.state w2) = None) /\
  (a <> b ->
   exists w1 w2,
     Home.dispatch (Home.toggleFilter api a) w = Some w1 /\
     Home.dispatch (Home.toggleFilter api b) w1 = Some w2 /\
     Home.selectedFilter (Home.state w2) = Some b).
Proof.
  assert (Hstep : forall tag w0,
             exists w', Home.dispatch (Home.toggleFilter api tag) w0 = Some w' /\
                        Home.selectedFilter (Home.state w') =
                          if decide (Home.selectedFilter (Home.state w0) = Some tag)
                          then None else Some tag).
  { intros tag w0. destruct (toggleFilter_dispatch api tag w0) as [w' [Hd [Hf _]]].
    exists w'. split; [exact Hd|]. rewrite Hf.
    destruct (Home.selectedFilter (Home.state w0)) as [active|].
    - destruct (String.eqb_spec active tag) as [Heq|Hne].
      + rewrite decide_True by congruence. reflexivity.
      + rewrite decide_False by congruence. reflexivity.
    - rewrite decide_False by discriminate. reflexivity. }
  split; [apply Hstep|]. split.
  - intros Hoff. destruct (Hstep a w) as [w1 [H1 F1]].
    destruct (Hstep a w1) as [w2 [H2 F2]].
    rewrite decide_False in F1 by exact Hoff.
    rewrite F1, decide_True in F2 by reflexivity.
    exists w1, w2. repeat split; assumption.
  - intros Hab. destruct (Hstep a w) as [w1 [H1 F1]].
    destruct (Hstep b w1) as [w2 [H2 F2]].
    exists w1, w2. split; [exact H1|]. split; [exact H2|].
    rewrite F2. apply decide_False. rewrite F1.
    destruct (decide (Home.selectedFilter (Home.state w) = Some a)); congruence.
Qed.

(** From no filter: "पद" twice, and "पद" then "व्याख्या". *)
Lemma toggleFilter_selects_or_clears_witness :
  let w := {| Home.state := Home.initial; Home.storage := ∅ |} in
  (exists w1 w2,
     Home.dispatch (Home.toggleFilter (fun _ => Rejects) "पद") w = Some w1 /\
     Home.dispatch (Home.toggleFilter (fun _ => Rejects) "पद") w1 = Some w2 /\
     Home.selectedFilter (Home.state w1) = Some "पद" /\
     Home.selectedFilter (Home.state w2) = None) /\
  (exists w1 w2,
     Home.dispatch (Home.toggleFilter (fun _ => Rejects) "पद") w = Some w1 /\
     Home.dispatch (Home.toggleFilter (fun _ => Rejects) "व्याख्या") w1 = Some w2 /\
     Home.selectedFilter (Home.state w2) = Some "व्याख्या").
Proof.
  intros w.
  destruct (toggleFilter_selects_or_clears (fun _ => Rejects) w "पद" "व्याख्या")
    as [_ [Htwice Hother]].
  split.
  - apply Htwice. simpl. discriminate.
  - apply Hother. discriminate.
Defined.

(** C5 (what the code does). With the word "अ" typed and no filter active,
    [toggleFilter("पद")] asks for the filter "पद" and sends its request at
    once, but the request carries no filter: [fetchSuggestions] reads
    [selectedFilter] of the render that created the handler. *)
Theorem toggleFilter_request_has_previous_filter (api : API) :
  let snap := {| Home.word := "अ"; Home.suggestions := []; Home.history := [];
                 Home.selectedFilter := None; Home.isSearching := false |} in
  (exists rest,
      effects (Home.toggleFilter api "पद" snap) =
      Home.SetSelectedFilter (Some "पद") :: Home.SetIsSearching true
        :: Home.ApiGet {| param_word := "अ"; param_filter := None |} :: rest) /\
  Home.requests (effects (Home.toggleFilter api "पद" snap)) =
  [{| param_word := "अ"; param_filter := None |}].
Proof.
  intros snap. split.
  - unfold Home.toggleFilter, Home.fetchSuggestions, Home.API_get. simpl falsy. cbv iota.
    match goal with |- context [api ?p] => destruct (api p) as [|[[[[|] rs]|]]] end;
      eexists; reflexivity.
  - apply (toggleFilter_requests api "पद" _ _ snap eq_refl).
Qed.

(** ** Favourites *)

Section FavoriteFacts.

Import Results.

Lemma toggleFavorite_dispatch (term : string) (w : World) :
  let updated :=
    if existsb (String.eqb term) (favorites (state w))
    then List.filter (fun item => negb (String.eqb item term)) (favorites (state w))
    else favorites (state w) ++ [term] in
  dispatch (toggleFavorite term) w =
  Some {| state := {| results := results (state w);
                      loading := loading (state w);
                      favorites := updated |};
          storage := <["favorites" := JSON_stringify updated]> (storage w) |}.
Proof.
  intros updated. unfold dispatch, toggleFavorite. fold updated.
  cbn [effects fst bind emit app apply_effects].
  unfold apply_effect at 1. rewrite as_strings_of_strings. reflexivity.
Qed.

Lemma filter_absent (term : string) (l : list string) :
  ~ In term l ->
  List.filter (fun item => negb (String.eqb item term)) l = l.
Proof.
  induction l as [|x l IH]; intros Hnin; simpl; [reflexivity|].
  destruct (String.eqb_spec x term) as [Heq|Hne].
  - exfalso. apply Hnin. left. exact Heq.
  - simpl. rewrite IH; [reflexivity|]. intros Hin. apply Hnin. right. exact Hin.
Qed.

Lemma includes_filtered (term : string) (l : list string) :
  existsb (String.eqb term)
          (List.filter (fun item => negb (String.eqb item term)) l) = false.
Proof.
  apply not_true_is_false. rewrite includes_In, filter_differs_In.
  intros [_ Hne]. congruence.
Qed.

Lemma includes_appended (term : string) (l : list string) :
  existsb (String.eqb term) (l ++ [term]) = true.
Proof. apply includes_In, in_or_app. right. left. reflexivity. Qed.

Lemma NoDup_snoc (x : string) (l : list string) :
  List.NoDup l -> ~ In x l -> List.NoDup (l ++ [x]).
Proof.
  induction l as [|y l IH]; intros Hnd Hnin; simpl.
  - constructor; [intros [] | constructor].
  - inversion Hnd as [|? ? Hy Hl]; subst. constructor.
    + intros Hin. apply in_app_or in Hin as [Hin|[Hin|[]]].
      * exact (Hy Hin).
      * apply Hnin. left. symmetry. exact Hin.
    + apply IH; [exact Hl|]. intros Hin. apply Hnin. right. exact Hin.
Qed.

End FavoriteFacts.

(** C6. With every favourite listed once, [toggleFavorite t] twice in a row
    leaves the same terms in the favourites as before: the first call
    changes whether [t] is one of them, the second changes it back, and no
    other term comes or goes. *)
Theorem toggleFavorite_twice_restores_membership (t : string) (w : Results.World) :
  List.NoDup (Results.favorites (Results.state w)) ->
  exists w1 w2,
    Results.dispatch (Results.toggleFavorite t) w = Some w1 /\
    Results.dispatch (Results.toggleFavorite t) w1 = Some w2 /\
    (In t (Results.favorites (Results.state w1))
     <-> ~ In t (Results.favorites (Results.state w))) /\
    (forall x, In x (Results.favorites (Results.state w2))
               <-> In x (Results.favorites (Results.state w))) /\
    List.NoDup (Results.favorites (Results.state w2)) /\
    Results.storage w2 !! "favorites"
    = Some (JSON_stringify (Results.favorites (Results.state w2))).
Proof.
  intros Hnd. do 2 eexists.
  split; [apply toggleFavorite_dispatch|].
  split; [apply toggleFavorite_dispatch|].
  cbn [Results.state Results.favorites Results.storage].
  set (favs := Results.favorites (Results.state w)) in *.
  destruct (existsb (String.eqb t) favs) eqn:Hmem.
  - apply includes_In in Hmem.
    rewrite includes_filtered.
    split; [|split; [|split]].
    + rewrite filter_differs_In. split; [intros [_ Hne]; congruence | contradiction].
    + intros x. rewrite in_app_iff, filter_differs_In. simpl. split.
      * intros [[Hin _]|[<-|[]]]; assumption.
      * intros Hin. destruct (string_dec x t) as [->|Hne]; [right; left; reflexivity|].
        left. split; assumption.
    + apply NoDup_snoc; [apply List.NoDup_filter; exact Hnd|].
      rewrite filter_differs_In. intros [_ Hne]. congruence.
    + apply lookup_insert_eq.
  - assert (Hnin : ~ In t favs).
    { intros Hin. apply includes_In in Hin. congruence. }
    rewrite includes_appended, List.filter_app, (filter_absent t favs Hnin).
    simpl. rewrite String.eqb_refl. simpl. rewrite app_nil_r.
    split; [|split; [|split]].
    + split; [intros _; exact Hnin | intros _; apply in_or_app; right; left; reflexivity].
    + intros x. reflexivity.
    + exact Hnd.
    + apply lookup_insert_eq.
Qed.

(** The fourth scenario of the specification: from no favourites. *)
Lemma toggleFavorite_twice_restores_membership_witness :
  let w := {| Results.state := Results.initial; Results.storage := ∅ |} in
  exists w1 w2,
    Results.dispatch (Results.toggleFavorite "अश्वगंधा") w = Some w1 /\
    Results.dispatch (Results.toggleFavorite "अश्वगंधा") w1 = Some w2 /\
    (In "अश्वगंधा" (Results.favorites (Results.state w1))
     <-> ~ In "अश्वगंधा" (Results.favorites (Results.state w))) /\
    (forall x, In x (Results.favorites (Results.state w2))
               <-> In x (Results.favorites (Results.state w))) /\
    List.NoDup (Results.favorites (Results.state w2)) /\
    Results.storage w2 !! "favorites"
    = Some (JSON_stringify (Results.favorites (Results.state w2))).
Proof.
  apply (toggleFavorite_twice_restores_membership
           "अश्वगंधा" {| Results.state := Results.initial; Results.storage := ∅ |}).
  simpl. constructor.
Defined.

(** C10. Without a word in the route (missing or empty), [fetchResults]
    returns at once: no request and no change of state, however often it is
    called; after the mount effect the screen still has [loading] set, as
    [useState(true)] left it, and no results. *)
Theorem fetchResults_without_word_stays_loading
    (api : API) (route : Results.RouteParams) (store : gmap string string) :
  Results.word route = None \/ Results.word route = Some EmptyString ->
  Results.fetchResults api route = ([], Normal tt) /\
  (forall (n : nat) (w : Results.World),
      Nat.iter n (fun o => match o with
                           | Some w' => Results.dispatch (fun _ => Results.fetchResults api route) w'
                           | None => None
                           end) (Some w) = Some w) /\
  Results.requests (effects (Results.on_mount api route store)) = [] /\
  forall w',
    Results.dispatch (fun _ => Results.on_mount api route store)
                     {| Results.state := Results.initial; Results.storage := store |}
    = Some w' ->
    Results.loading (Results.state w') = true /\
    Results.results (Results.state w') = [].
Proof.
  intros Hword.
  assert (Hfetch : Results.fetchResults api route = ([], Normal tt)).
  { unfold Results.fetchResults. destruct Hword as [-> | ->]; reflexivity. }
  split; [exact Hfetch|]. split; [|split].
  - intros n w. induction n as [|n IH]; simpl; [reflexivity|].
    rewrite IH. unfold Results.dispatch. rewrite Hfetch. reflexivity.
  - unfold Results.on_mount, Results.detach. rewrite Hfetch.
    unfold Results.loadFavorites, Results.parse_json.
    destruct (store !! "favorites") as [stored|]; [|reflexivity].
    destruct (falsy stored); [reflexivity|].
    destruct (JSON_parse stored); reflexivity.
  - intros w'. unfold Results.dispatch, Results.on_mount, Results.detach.
    rewrite Hfetch. unfold Results.loadFavorites, Results.parse_json.
    destruct (store !! "favorites") as [stored|];
      [destruct (falsy stored); [|destruct (JSON_parse stored) as [v r| |]]|];
      simpl; try (intros [= <-]; split; reflexivity).
    unfold Results.apply_effect. destruct (as_string_array v); [|discriminate].
    intros [= <-]. split; reflexivity.
Qed.

Lemma fetchResults_without_word_stays_loading_witness :
  let route := {| Results.word := None; Results.filter := None |} in
  Results.fetchResults (fun _ => Rejects) route = ([], Normal tt) /\
  (forall (n : nat) (w : Results.World),
      Nat.iter n (fun o => match o with
                           | Some w' => Results.dispatch
                                          (fun _ => Results.fetchResults (fun _ => Rejects) route) w'
                           | None => None
                           end) (Some w) = Some w) /\
  Results.requests (effects (Results.on_mount (fun _ => Rejects) route ∅)) = [] /\
  forall w',
    Results.dispatch (fun _ => Results.on_mount (fun _ => Rejects) route ∅)
                     {| Results.state := Results.initial; Results.storage := ∅ |}
    = Some w' ->
    Results.loading (Results.state w') = true /\
    Results.results (Results.state w') = [].
Proof.
  apply (fetchResults_without_word_stays_loading
           (fun _ => Rejects) {| Results.word := None; Results.filter := None |} ∅).
  left. reflexivity.
Defined.

(** * Properties of the rest of the two screens *)

(** ** A debounced function under any calls in the order of time *)

Section SettledFacts.

Import Timers Bursts.
Context {Args : Type}.
Variable d : Z.

Local Open Scope Z_scope.








End SettledFacts.





(** ** Typing with a render after every keystroke *)

Section TypingFacts.

Import Timers Typing.

Local Open Scope Z_scope.

Lemma handler_calls_fired (tms : list (Timer string)) :
  handler_calls (map (fun tm => Fired (timer_id tm) (timer_args tm)) tms)
  = map timer_args tms.
Proof. induction tms as [|tm tms IH]; simpl; [reflexivity|]. rewrite IH. reflexivity. Qed.

Lemma sorted_sort_id (tms : list (Timer string)) :
  StronglySorted by_time tms -> sort_by_time tms = tms.
Proof.
  induction 1 as [|tm tms Hs IH Hall]; [reflexivity|].
  unfold sort_by_time in *. simpl. rewrite IH.
  destruct tms as [|other rest]; [reflexivity|]. simpl.
  inversion Hall as [|? ? Hle _]; subst. unfold by_time in Hle.
  destruct (Z.leb_spec (fire_at tm) (fire_at other)); [reflexivity | lia].
Qed.

Lemma sorted_filter (f : Timer string -> bool) (tms : list (Timer string)) :
  StronglySorted by_time tms -> StronglySorted by_time (List.filter f tms).
Proof.
  induction 1 as [|tm tms Hs IH Hall]; simpl; [constructor|].
  destruct (f tm); [|exact IH]. constructor; [exact IH|].
  rewrite List.Forall_forall in *. intros x Hx. apply Hall.
  apply filter_In in Hx. tauto.
Qed.

(** Of timers in the order of their times, those due by [t] come first. *)
Lemma sorted_due_then_later (t : Z) (tms : list (Timer string)) :
  StronglySorted by_time tms ->
  List.filter (fun tm => fire_at tm <=? t) tms
    ++ List.filter (fun tm => negb (fire_at tm <=? t)) tms = tms.
Proof.
  induction 1 as [|tm tms Hs IH Hall]; simpl; [reflexivity|].
  destruct (Z.leb_spec (fire_at tm) t) as [Hle|Hgt]; simpl.
  - rewrite IH. reflexivity.
  - assert (Hnone : List.filter (fun tm => fire_at tm <=? t) tms = []).
    { clear IH Hs. induction tms as [|x tms IHt]; [reflexivity|]. simpl.
      inversion Hall as [|? ? Hx Hrest]; subst. unfold by_time in Hx.
      destruct (Z.leb_spec (fire_at x) t); [lia|]. apply IHt. exact Hrest. }
    rewrite Hnone in *. simpl in *. rewrite IH. reflexivity.
Qed.

Lemma sorted_snoc (tms : list (Timer string)) (tm : Timer string) :
  StronglySorted by_time tms -> Forall (fun x => fire_at x <= fire_at tm) tms ->
  StronglySorted by_time (tms ++ [tm]).
Proof.
  induction 1 as [|x tms Hs IH Hall]; intros Hb; simpl.
  - constructor; constructor.
  - inversion Hb as [|? ? Hx Hrest]; subst. constructor; [apply IH; exact Hrest|].
    apply Forall_app. split; [exact Hall|]. constructor; [exact Hx | constructor].
Qed.

Lemma advance_typed (t t' : Z) (texts : list string) (l : Loop string) :
  typed t texts l -> t <= t' -> typed t' texts (advance_to t' l).
Proof.
  intros [Hnow Hs Hb Ht Hk] Hle. unfold advance_to. split; simpl.
  - lia.
  - apply sorted_filter. exact Hs.
  - rewrite List.Forall_forall in *. intros x Hx. apply filter_In in Hx as [Hx _].
    specialize (Hb x Hx). simpl in Hb. lia.
  - rewrite handler_calls_app, handler_calls_fired.
    rewrite sorted_sort_id by (apply sorted_filter; exact Hs).
    rewrite <- app_assoc, <- map_app, sorted_due_then_later by exact Hs. exact Ht.
  - intros id Hin. apply in_app_or in Hin as [Hin|Hin]; [exact (Hk id Hin)|].
    apply in_map_iff in Hin as [x [Hx _]]. discriminate Hx.
Qed.

Lemma key_typed (t t' : Z) (text : string) (texts : list string) (l : Loop string) :
  typed t texts l -> t <= t' ->
  typed t' (texts ++ [text]) (snd (onChangeText t' text l)).
Proof.
  intros Hty Hle. destruct (advance_typed t t' texts l Hty Hle) as [Hnow Hs Hb Ht Hk].
  unfold onChangeText, call_at, call, debouncedFetch, debounce.
  cbn [fst snd delay timeout clearTimeout].
  generalize dependent (advance_to t' l). intros l1 Hnow Hs Hb Ht Hk.
  unfold setTimeout. split; simpl.
  - exact Hnow.
  - apply sorted_snoc; [exact Hs|]. simpl. rewrite Hnow. exact Hb.
  - apply Forall_app. split.
    + exact Hb.
    + constructor; [simpl; lia | constructor].
  - rewrite handler_calls_app. simpl. rewrite app_nil_r, map_app, app_assoc, Ht.
    reflexivity.
  - intros id Hin. apply in_app_or in Hin as [Hin|[Hin|[]]]; [exact (Hk id Hin)|].
    discriminate Hin.
Qed.

Lemma keys_typed (keys : list (Z * string)) :
  forall (t : Z) (texts : list string) (l : Loop string),
    typed t texts l -> Bursts.in_order t keys = true ->
    typed (Bursts.last_time t keys) (texts ++ map snd keys) (type_keys keys l).
Proof.
  induction keys as [|[t' text] keys IH]; intros t texts l Hty Hord.
  - simpl. rewrite app_nil_r. exact Hty.
  - simpl in Hord. apply andb_prop in Hord as [Hle Hord]. apply Z.leb_le in Hle.
    pose proof (key_typed t t' text texts l Hty Hle) as Hty'.
    specialize (IH t' (texts ++ [text]) _ Hty' Hord).
    rewrite <- app_assoc in IH. exact IH.
Qed.

End TypingFacts.

(** X3. On the home screen every render builds its own debounced function,
    so when a render comes between each two keystrokes no keystroke clears
    the timer of the one before: a fetch runs for every text typed, however
    fast the typing, in the order of typing. *)
Theorem typing_fetches_every_text (t0 : Z) (n0 : nat) (keys : list (Z * string)) (T : Z) :
  Bursts.in_order t0 keys = true ->
  (Bursts.last_time t0 keys + 500 <= T)%Z ->
  let l := Timers.advance_to T (Typing.type_keys keys (Timers.idle t0 n0)) in
  Timers.handler_calls (Timers.trace l) = map snd keys /\
  Timers.pending l = [] /\
  forall id, ~ In (Timers.Cleared id) (Timers.trace l).
Proof.
  intros Hord HT l.
  assert (H0 : Typing.typed t0 [] (Timers.idle t0 n0)).
  { split; simpl; try constructor. intros id []. }
  pose proof (keys_typed keys t0 [] _ H0 Hord) as Hty. simpl in Hty.
  assert (HT' : (Bursts.last_time t0 keys <= T)%Z) by lia.
  destruct (advance_typed _ T _ _ Hty HT') as [_ _ _ Ht Hk].
  destruct Hty as [_ _ Hb _ _].
  assert (Hp : Timers.pending l = []).
  { subst l. unfold Timers.advance_to. simpl.
    induction (Timers.pending (Typing.type_keys keys (Timers.idle t0 n0))) as [|x tms IHt];
      [reflexivity|]. simpl. inversion Hb as [|? ? Hx Hrest]; subst.
    destruct (Z.leb_spec (Timers.fire_at x) T); [|lia]. simpl. apply IHt. exact Hrest. }
  split; [|split; [exact Hp | exact Hk]].
  fold l in Ht. rewrite Hp in Ht. simpl in Ht. rewrite app_nil_r in Ht. exact Ht.
Qed.

(** The keystrokes of the burst that one debounced function answers once. *)
Lemma typing_fetches_every_text_witness :
  let l := Timers.advance_to 800
             (Typing.type_keys [(0%Z, "a"); (100%Z, "ab"); (300%Z, "abc")] (Timers.idle 0 0)) in
  Timers.handler_calls (Timers.trace l) = ["a"; "ab"; "abc"] /\
  Timers.pending l = [] /\
  forall id, ~ In (Timers.Cleared id) (Timers.trace l).
Proof.
  apply (typing_fetches_every_text 0 0 [(0%Z, "a"); (100%Z, "ab"); (300%Z, "abc")] 800).
  - reflexivity.
  - simpl. lia.
Defined.

(** ** More on the search history *)

Lemma remove_absent (term : string) (l : list string) :
  ~ In term l -> remove string_dec term l = l.
Proof. apply notin_remove. Qed.

Lemma remove_permutation (term : string) (l : list string) :
  List.NoDup l -> In term l -> Permutation (term :: remove string_dec term l) l.
Proof.
  induction l as [|x l IH]; intros Hnd Hin; [destruct Hin|].
  inversion Hnd as [|? ? Hx Hl]; subst. simpl.
  destruct (string_dec term x) as [->|Hne].
  - rewrite remove_absent by exact Hx. reflexivity.
  - destruct Hin as [Heq|Hin]; [congruence|].
    rewrite perm_swap. constructor. apply IH; assumption.
Qed.

Lemma remove_length_le (term : string) (l : list string) :
  length (remove string_dec term l) <= length l.
Proof.
  induction l as [|x l IH]; simpl; [lia|].
  destruct (string_dec term x); simpl; lia.
Qed.

Lemma remove_length_lt (term : string) (l : list string) :
  In term l -> length (remove string_dec term l) < length l.
Proof.
  induction l as [|x l IH]; intros Hin; [destruct Hin|]. simpl.
  destruct (string_dec term x) as [->|Hne].
  - pose proof (remove_length_le x l). lia.
  - destruct Hin as [Heq|Hin]; [congruence|]. simpl. specialize (IH Hin). lia.
Qed.

Lemma saved_history (term : string) (w w' : Home.World) :
  Home.dispatch (Home.saveToHistory term) w = Some w' ->
  Home.history (Home.state w')
  = firstn 5 (term :: remove string_dec term (Home.history (Home.state w))).
Proof.
  rewrite saveToHistory_dispatch. intros [= <-]. simpl.
  rewrite filter_differs_remove. reflexivity.
Qed.

(** X4. Searching again for the term that is already first in a history of
    at most 5 distinct terms changes nothing in the history. *)
Theorem saveToHistory_of_latest_changes_nothing
    (term : string) (rest : list string) (w : Home.World) :
  Home.history (Home.state w) = term :: rest ->
  ~ In term rest ->
  length rest <= 4 ->
  exists w', Home.dispatch (Home.saveToHistory term) w = Some w' /\
             Home.history (Home.state w') = Home.history (Home.state w).
Proof.
  intros Hh Hnin Hlen. rewrite saveToHistory_dispatch. eexists. split; [reflexivity|].
  cbn [Home.state Home.history]. rewrite filter_differs_remove, Hh. cbn [remove].
  destruct (string_dec term term) as [_|Hne]; [|congruence].
  rewrite remove_absent by exact Hnin.
  apply firstn_all2. simpl. lia.
Qed.

Lemma saveToHistory_of_latest_changes_nothing_witness :
  let w := {| Home.state :=
                {| Home.word := "क"; Home.suggestions := [];
                   Home.history := ["क"; "ख"; "ग"];
                   Home.selectedFilter := None; Home.isSearching := false |};
              Home.storage := ∅ |} in
  exists w', Home.dispatch (Home.saveToHistory "क") w = Some w' /\
             Home.history (Home.state w') = Home.history (Home.state w).
Proof.
  intros w. apply (saveToHistory_of_latest_changes_nothing "क" ["ख"; "ग"] w).
  - reflexivity.
  - simpl. intros [H|[H|[]]]; discriminate H.
  - simpl. lia.
Defined.

(** X5. Searching for a term that is somewhere in a history of at most 5
    distinct terms moves it to the front: the other terms keep their order
    and none is lost. *)
Theorem saveToHistory_of_known_term_reorders (term : string) (w : Home.World) :
  List.NoDup (Home.history (Home.state w)) ->
  length (Home.history (Home.state w)) <= 5 ->
  In term (Home.history (Home.state w)) ->
  exists w', Home.dispatch (Home.saveToHistory term) w = Some w' /\
             Home.history (Home.state w')
             = term :: remove string_dec term (Home.history (Home.state w)) /\
             Permutation (Home.history (Home.state w')) (Home.history (Home.state w)).
Proof.
  intros Hnd Hlen Hin. rewrite saveToHistory_dispatch. eexists. split; [reflexivity|].
  cbn [Home.state Home.history]. rewrite filter_differs_remove.
  pose proof (remove_length_lt term _ Hin) as Hlt.
  assert (Hkeep : firstn 5 (term :: remove string_dec term (Home.history (Home.state w)))
                  = term :: remove string_dec term (Home.history (Home.state w))).
  { apply firstn_all2. simpl. lia. }
  rewrite Hkeep. split; [reflexivity|]. apply remove_permutation; assumption.
Qed.

Lemma saveToHistory_of_known_term_reorders_witness :
  let w := {| Home.state :=
                {| Home.word := "ग"; Home.suggestions := [];
                   Home.history := ["क"; "ख"; "ग"; "घ"; "ङ"];
                   Home.selectedFilter := None; Home.isSearching := false |};
              Home.storage := ∅ |} in
  exists w', Home.dispatch (Home.saveToHistory "ग") w = Some w' /\
             Home.history (Home.state w')
             = "ग" :: remove string_dec "ग" (Home.history (Home.state w)) /\
             Permutation (Home.history (Home.state w')) (Home.history (Home.state w)).
Proof.
  intros w. apply (saveToHistory_of_known_term_reorders "ग" w).
  - simpl. repeat constructor; simpl; intuition discriminate.
  - simpl. lia.
  - simpl. auto.
Defined.

(** X6. Searching for a term that is not in the history puts it in front of
    the first four entries: nothing is lost from a history of up to four
    terms, and a history of five loses its last, oldest, term only. *)
Theorem saveToHistory_of_new_term_drops_oldest (term : string) (w : Home.World) :
  ~ In term (Home.history (Home.state w)) ->
  exists w', Home.dispatch (Home.saveToHistory term) w = Some w' /\
             Home.history (Home.state w') = term :: firstn 4 (Home.history (Home.state w)) /\
             (length (Home.history (Home.state w)) <= 4 ->
              Home.history (Home.state w') = term :: Home.history (Home.state w)) /\
             (length (Home.history (Home.state w)) = 5 ->
              Home.history (Home.state w') = term :: removelast (Home.history (Home.state w))).
Proof.
  intros Hnin. rewrite saveToHistory_dispatch. eexists. split; [reflexivity|].
  cbn [Home.state Home.history firstn].
  rewrite filter_differs_remove, remove_absent by exact Hnin.
  split; [reflexivity|]. split.
  - intros Hlen. rewrite firstn_all2 by lia. reflexivity.
  - intros Hlen. f_equal. rewrite removelast_firstn_len, Hlen. reflexivity.
Qed.

Lemma saveToHistory_of_new_term_drops_oldest_witness :
  let w := {| Home.state :=
                {| Home.word := "च"; Home.suggestions := [];
                   Home.history := ["क"; "ख"; "ग"; "घ"; "ङ"];
                   Home.selectedFilter := None; Home.isSearching := false |};
              Home.storage := ∅ |} in
  exists w', Home.dispatch (Home.saveToHistory "च") w = Some w' /\
             Home.history (Home.state w') = ["च"; "क"; "ख"; "ग"; "घ"].
Proof.
  intros w.
  destruct (saveToHistory_of_new_term_drops_oldest "च" w) as [w' [Hd [_ [_ Hfull]]]].
  - simpl. intuition discriminate.
  - exists w'. split; [exact Hd|]. rewrite Hfull by reflexivity. reflexivity.
Defined.

Lemma record_all_snoc (terms : list string) (term : string) (w : Home.World) :
  Home.record_all (terms ++ [term]) w =
  match Home.record_all terms w with
  | Some w' => Home.dispatch (Home.saveToHistory term) w'
  | None => None
  end.
Proof. unfold Home.record_all. rewrite fold_left_app. reflexivity. Qed.

Lemma record_all_defined (terms : list string) (w : Home.World) :
  exists w', Home.record_all terms w = Some w'.
Proof.
  revert w. induction terms as [|term terms IH]; intros w; [exists w; reflexivity|].
  rewrite record_all_cons, saveToHistory_dispatch. apply IH.
Qed.

(** X7. After any searches, at least one, what is stored under
    [searchHistory] is the history on screen: the home screen mounted anew
    on that storage loads exactly that history. *)
Theorem recorded_history_survives_remount (terms : list string) (w : Home.World) :
  terms <> [] ->
  exists w',
    Home.record_all terms w = Some w' /\
    Home.storage w' !! "searchHistory"
    = Some (JSON_stringify (Home.history (Home.state w'))) /\
    exists w'',
      Home.dispatch (fun _ => Home.on_mount (Home.storage w'))
                    {| Home.state := Home.initial; Home.storage := Home.storage w' |}
      = Some w'' /\
      Home.history (Home.state w'') = Home.history (Home.state w') /\
      Home.storage w'' = Home.storage w'.
Proof.
  intros Hne. destruct (exists_last Hne) as [earlier [term ->]].
  destruct (record_all_defined earlier w) as [w1 H1].
  rewrite record_all_snoc, H1, saveToHistory_dispatch.
  eexists. split; [reflexivity|]. cbn [Home.state Home.history Home.storage].
  split; [apply lookup_insert_eq|].
  unfold Home.dispatch, Home.on_mount, Home.detach.
  rewrite (loadHistory_reads_back _ _ (lookup_insert_eq _ _ _)).
  cbn [effects fst Home.apply_effects]. unfold Home.apply_effect.
  rewrite as_strings_of_strings. eexists. split; [reflexivity|]. split; reflexivity.
Qed.

Lemma recorded_history_survives_remount_witness :
  exists w',
    Home.record_all ["क"; "ख"; "क"] {| Home.state := Home.initial; Home.storage := ∅ |}
    = Some w' /\
    Home.storage w' !! "searchHistory"
    = Some (JSON_stringify (Home.history (Home.state w'))) /\
    exists w'',
      Home.dispatch (fun _ => Home.on_mount (Home.storage w'))
                    {| Home.state := Home.initial; Home.storage := Home.storage w' |}
      = Some w'' /\
      Home.history (Home.state w'') = Home.history (Home.state w') /\
      Home.storage w'' = Home.storage w'.
Proof.
  apply (recorded_history_survives_remount
           ["क"; "ख"; "क"] {| Home.state := Home.initial; Home.storage := ∅ |}).
  discriminate.
Defined.

(** X8. The two stores do not touch each other: [saveToHistory] writes
    under [searchHistory] and [toggleFavorite] under [favorites], and
    neither changes what is stored under any other key. *)
Theorem stores_write_their_own_key_only (key term : string) :
  (forall (w w' : Home.World),
      key <> "searchHistory" ->
      Home.dispatch (Home.saveToHistory term) w = Some w' ->
      Home.storage w' !! key = Home.storage w !! key) /\
  (forall (w w' : Results.World),
      key <> "favorites" ->
      Results.dispatch (Results.toggleFavorite term) w = Some w' ->
      Results.storage w' !! key = Results.storage w !! key).
Proof.
  split; intros w w' Hkey.
  - rewrite saveToHistory_dispatch. intros [= <-]. simpl.
    apply lookup_insert_ne. congruence.
  - rewrite toggleFavorite_dispatch. intros [= <-]. simpl.
    apply lookup_insert_ne. congruence.
Qed.

Lemma stores_write_their_own_key_only_witness :
  (forall w',
      Home.dispatch (Home.saveToHistory "क")
                    {| Home.state := Home.initial;
                       Home.storage := {[ "favorites" := JSON_stringify ["ख"] ]} |} = Some w' ->
      Home.storage w' !! "favorites" = Some (JSON_stringify ["ख"])) /\
  (forall w',
      Results.dispatch (Results.toggleFavorite "क")
                       {| Results.state := Results.initial;
                          Results.storage := {[ "searchHistory" := JSON_stringify ["ख"] ]} |}
      = Some w' ->
      Results.storage w' !! "searchHistory" = Some (JSON_stringify ["ख"])).
Proof.
  split; intros w' Hd.
  - apply (proj1 (stores_write_their_own_key_only "favorites" "क")) in Hd;
      [exact Hd | discriminate].
  - apply (proj2 (stores_write_their_own_key_only "searchHistory" "क")) in Hd;
      [exact Hd | discriminate].
Defined.

(** ** More on the favourites *)

Section HeartFacts.

Import Results ResultsView.

Lemma includes_toggled (term x : string) (favs : list string) :
  existsb (String.eqb x) (toggled term favs)
  = if String.eqb x term then negb (existsb (String.eqb x) favs)
    else existsb (String.eqb x) favs.
Proof.
  unfold toggled. destruct (String.eqb_spec x term) as [->|Hne].
  - destruct (existsb (String.eqb term) favs) eqn:Hmem; simpl.
    + apply includes_filtered.
    + apply includes_appended.
  - destruct (existsb (String.eqb term) favs) eqn:Hmem.
    + apply eq_true_iff_eq. rewrite !includes_In, filter_differs_In. tauto.
    + rewrite existsb_app. simpl. destruct (String.eqb_spec x term); [contradiction|].
      rewrite !orb_false_r. reflexivity.
Qed.

Lemma toggled_NoDup (term : string) (favs : list string) :
  List.NoDup favs -> List.NoDup (toggled term favs).
Proof.
  intros Hnd. unfold toggled. destruct (existsb (String.eqb term) favs) eqn:Hmem.
  - apply List.NoDup_filter. exact Hnd.
  - apply NoDup_snoc; [exact Hnd|]. intros Hin. apply includes_In in Hin. congruence.
Qed.

Lemma toggleFavorite_toggled (term : string) (w : World) :
  dispatch (toggleFavorite term) w =
  Some {| state := {| results := results (state w);
                      loading := loading (state w);
                      favorites := toggled term (favorites (state w)) |};
          storage := <["favorites" := JSON_stringify (toggled term (favorites (state w)))]>
                       (storage w) |}.
Proof. apply toggleFavorite_dispatch. Qed.

Lemma toggle_all_cons (term : string) (terms : list string) (w : World) :
  toggle_all (term :: terms) w =
  match dispatch (toggleFavorite term) w with
  | Some w' => toggle_all terms w'
  | None => None
  end.
Proof.
  unfold toggle_all. simpl.
  destruct (dispatch (toggleFavorite term) w) as [w'|]; [reflexivity|].
  induction terms as [|x terms IH]; simpl; [reflexivity | exact IH].
Qed.

Lemma toggle_all_snoc (terms : list string) (term : string) (w : World) :
  toggle_all (terms ++ [term]) w =
  match toggle_all terms w with
  | Some w' => dispatch (toggleFavorite term) w'
  | None => None
  end.
Proof. unfold toggle_all. rewrite fold_left_app. reflexivity. Qed.

Lemma toggle_all_parity (terms : list string) :
  forall w : World,
    exists w', toggle_all terms w = Some w' /\
               (List.NoDup (favorites (state w)) -> List.NoDup (favorites (state w'))) /\
               forall x, existsb (String.eqb x) (favorites (state w'))
                         = xorb (existsb (String.eqb x) (favorites (state w)))
                                (Nat.odd (count_occ string_dec terms x)).
Proof.
  induction terms as [|term terms IH]; intros w.
  - exists w. split; [reflexivity|]. split; [tauto|]. intros x. simpl.
    rewrite xorb_false_r. reflexivity.
  - rewrite toggle_all_cons, toggleFavorite_toggled.
    destruct (IH {| state := {| results := results (state w);
                                loading := loading (state w);
                                favorites := toggled term (favorites (state w)) |};
                    storage := <["favorites" := JSON_stringify (toggled term (favorites (state w)))]>
                                 (storage w) |}) as [w' [Hw' [Hnd Hpar]]].
    exists w'. split; [exact Hw'|]. cbn [state favorites] in *. split.
    + intros H. apply Hnd, toggled_NoDup, H.
    + intros x. rewrite Hpar, includes_toggled. simpl.
      destruct (string_dec term x) as [->|Hne].
      * rewrite String.eqb_refl, Nat.odd_succ, <- Nat.negb_odd.
        destruct (existsb _ _), (Nat.odd _); reflexivity.
      * destruct (String.eqb_spec x term); [congruence | reflexivity].
Qed.

End HeartFacts.

(** X9. Pressing the heart of a card flips the heart of every card with the
    same headword and of no other card. *)
Theorem heart_press_flips_that_headword (pressed other : DictionaryEntry) (w : Results.World) :
  exists w',
    Results.dispatch (Results.toggleFavorite (पद pressed)) w = Some w' /\
    ResultsView.heart_filled (Results.state w') other
    = if String.eqb (पद other) (पद pressed)
      then negb (ResultsView.heart_filled (Results.state w) other)
      else ResultsView.heart_filled (Results.state w) other.
Proof.
  rewrite toggleFavorite_toggled. eexists. split; [reflexivity|].
  unfold ResultsView.heart_filled. simpl. apply includes_toggled.
Qed.

(** X10. After any presses of hearts, starting with no favourites, a term is
    a favourite exactly when its heart was pressed an odd number of times,
    and no term is listed twice. *)
Theorem favorites_follow_parity_of_presses (terms : list string) (w : Results.World) :
  Results.favorites (Results.state w) = [] ->
  exists w',
    ResultsView.toggle_all terms w = Some w' /\
    List.NoDup (Results.favorites (Results.state w')) /\
    forall x, In x (Results.favorites (Results.state w'))
              <-> Nat.odd (count_occ string_dec terms x) = true.
Proof.
  intros Hempty. destruct (toggle_all_parity terms w) as [w' [Hw' [Hnd Hpar]]].
  exists w'. split; [exact Hw'|]. split.
  - apply Hnd. rewrite Hempty. constructor.
  - intros x. rewrite <- includes_In, Hpar, Hempty. simpl. reflexivity.
Qed.

Lemma favorites_follow_parity_of_presses_witness :
  exists w',
    ResultsView.toggle_all ["क"; "ख"; "क"; "ग"; "क"]
      {| Results.state := Results.initial; Results.storage := ∅ |} = Some w' /\
    List.NoDup (Results.favorites (Results.state w')) /\
    forall x, In x (Results.favorites (Results.state w'))
              <-> Nat.odd (count_occ string_dec ["क"; "ख"; "क"; "ग"; "क"] x) = true.
Proof.
  apply (favorites_follow_parity_of_presses
           ["क"; "ख"; "क"; "ग"; "क"]
           {| Results.state := Results.initial; Results.storage := ∅ |}).
  reflexivity.
Defined.

(** X11. After any presses of hearts, at least one, what is stored under
    [favorites] is the list on screen: [loadFavorites] on that storage, in a
    results screen mounted anew, sets exactly those favourites. *)
Theorem favorites_survive_remount (terms : list string) (w : Results.World) :
  terms <> [] ->
  exists w',
    ResultsView.toggle_all terms w = Some w' /\
    Results.storage w' !! "favorites"
    = Some (JSON_stringify (Results.favorites (Results.state w'))) /\
    Results.dispatch (fun _ => Results.loadFavorites (Results.storage w'))
                     {| Results.state := Results.initial;
                        Results.storage := Results.storage w' |}
    = Some {| Results.state :=
                {| Results.results := [];
                   Results.loading := true;
                   Results.favorites := Results.favorites (Results.state w') |};
              Results.storage := Results.storage w' |}.
Proof.
  intros Hne. destruct (exists_last Hne) as [earlier [term ->]].
  destruct (toggle_all_parity earlier w) as [w1 [H1 _]].
  rewrite toggle_all_snoc, H1, toggleFavorite_toggled.
  eexists. split; [reflexivity|]. cbn [Results.state Results.favorites Results.storage].
  split; [apply lookup_insert_eq|].
  unfold Results.dispatch.
  rewrite (loadFavorites_reads_back _ _ (lookup_insert_eq _ _ _)).
  cbn [effects fst Results.apply_effects]. unfold Results.apply_effect.
  rewrite as_strings_of_strings. reflexivity.
Qed.

Lemma favorites_survive_remount_witness :
  exists w',
    ResultsView.toggle_all ["क"; "ख"; "क"]
      {| Results.state := Results.initial; Results.storage := ∅ |} = Some w' /\
    Results.storage w' !! "favorites"
    = Some (JSON_stringify (Results.favorites (Results.state w'))) /\
    Results.dispatch (fun _ => Results.loadFavorites (Results.storage w'))
                     {| Results.state := Results.initial;
                        Results.storage := Results.storage w' |}
    = Some {| Results.state :=
                {| Results.results := [];
                   Results.loading := true;
                   Results.favorites := Results.favorites (Results.state w') |};
              Results.storage := Results.storage w' |}.
Proof.
  apply (favorites_survive_remount
           ["क"; "ख"; "क"] {| Results.state := Results.initial; Results.storage := ∅ |}).
  discriminate.
Defined.

(** ** What a fetch leaves on the two screens *)

Lemma fetchResults_dispatch (api : API) (c : ascii) (rest : string)
      (flt : option string) (w : Results.World) :
  let route := {| Results.word := Some (String c rest); Results.filter := flt |} in
  let p := {| param_word := String c rest; param_filter := or_undefined flt |} in
  Results.requests (effects (Results.fetchResults api route)) = [p] /\
  Results.dispatch (fun _ => Results.fetchResults api route) w =
  Some {| Results.state := {| Results.results := ResultsView.answered (api p);
                              Results.loading := false;
                              Results.favorites := Results.favorites (Results.state w) |};
          Results.storage := Results.storage w |}.
Proof.
  intros route p. unfold Results.dispatch, Results.fetchResults, Results.API_get.
  subst route. cbn [Results.word Results.filter]. simpl falsy. cbv iota.
  fold p. destruct (api p) as [|[[[[|] rs]|]]]; split; reflexivity.
Qed.

Lemma or_undefined_twice (x : option string) : or_undefined (or_undefined x) = or_undefined x.
Proof. destruct x as [[|c s]|]; reflexivity. Qed.

(** X12. A fetch that completes replaces the list by what the answer
    carries: the entries of a successful answer (none when [results] is
    missing), and nothing otherwise; what the list held before plays no
    part.  This holds for the suggestions and for the results alike. *)
Theorem fetch_replaces_list_by_answer (api : API) :
  (forall (input : string) (w : Home.World),
      falsy input = false ->
      let p := {| param_word := input;
                  param_filter := or_undefined (Home.selectedFilter (Home.state w)) |} in
      exists w', Home.dispatch (Home.fetchSuggestions api input) w = Some w' /\
                 Home.suggestions (Home.state w') =
                 match api p with
                 | Resolves {| data := Some d |} =>
                     if success d then or_empty (results d) else []
                 | _ => []
                 end) /\
  (forall (route : Results.RouteParams) (term : string) (w : Results.World),
      Results.word route = Some term ->
      falsy term = false ->
      let p := {| param_word := term;
                  param_filter := or_undefined (Results.filter route) |} in
      exists w', Results.dispatch (fun _ => Results.fetchResults api route) w = Some w' /\
                 Results.results (Results.state w') =
                 match api p with
                 | Resolves {| data := Some d |} =>
                     if success d then or_empty (results d) else []
                 | _ => []
                 end).
Proof.
  split.
  - intros [|c rest] w Hne p; [discriminate|].
    rewrite fetchSuggestions_dispatch. eexists. split; reflexivity.
  - intros [wd flt] term w Hw Hne p. simpl in Hw. subst wd.
    destruct term as [|c rest]; [discriminate|].
    destruct (fetchResults_dispatch api c rest flt w) as [_ Hd].
    rewrite Hd. eexists. split; reflexivity.
Qed.

Lemma fetch_replaces_list_by_answer_witness :
  let entry := {| _id := "1"; पद := "अश्वगंधा"; linga := None; vyakhya := None;
                  sandarbha := None; marathi_artha := None |} in
  let api := fun _ : RequestParams =>
               Resolves {| data := Some {| success := true; results := Some [entry] |} |} in
  exists w', Home.dispatch (Home.fetchSuggestions api "अश्वगंधा")
                           {| Home.state := Home.initial; Home.storage := ∅ |} = Some w' /\
             Home.suggestions (Home.state w') = [entry].
Proof.
  intros entry api.
  apply (proj1 (fetch_replaces_list_by_answer api)
               "अश्वगंधा" {| Home.state := Home.initial; Home.storage := ∅ |}).
  reflexivity.
Defined.

(** X13. With a word in the route, the results screen never keeps its
    spinner once the fetch is over: it shows the cards of the answer, and
    the text for no results both for an answer without entries (a
    successful answer whose [results] is empty or missing) and for a
    request that failed. *)
Theorem results_view_after_fetch
    (api : API) (route : Results.RouteParams) (term : string) (w : Results.World) :
  Results.word route = Some term ->
  falsy term = false ->
  let p := {| param_word := term; param_filter := or_undefined (Results.filter route) |} in
  exists w',
    Results.dispatch (fun _ => Results.fetchResults api route) w = Some w' /\
    ResultsView.view (Results.state w') <> ResultsView.Spinner /\
    (failed (api p) = true -> ResultsView.view (Results.state w') = ResultsView.NoResults) /\
    (forall answer,
        api p = Resolves {| data := Some answer |} ->
        success answer = true ->
        or_empty (results answer) = [] ->
        ResultsView.view (Results.state w') = ResultsView.NoResults) /\
    (forall entry entries,
        api p = Resolves {| data := Some {| success := true;
                                            results := Some (entry :: entries) |} |} ->
        ResultsView.view (Results.state w') = ResultsView.ResultCards (entry :: entries)).
Proof.
  destruct route as [wd flt]. intros Hw Hne p. simpl in Hw. subst wd.
  destruct term as [|c rest]; [discriminate|].
  destruct (fetchResults_dispatch api c rest flt w) as [_ Hd]. rewrite Hd.
  eexists. split; [reflexivity|]. unfold ResultsView.view.
  subst p. cbn [Results.state Results.loading Results.results Results.filter].
  set (p := {| param_word := String c rest; param_filter := or_undefined flt |}).
  split; [|split; [|split]].
  - intros H. destruct (ResultsView.answered (api p)); simpl in H; discriminate H.
  - destruct (api p) as [|[[[[|] rs]|]]]; simpl; intros H; try discriminate H; reflexivity.
  - intros answer -> Hok Hnone. unfold ResultsView.answered.
    cbn [data]. rewrite Hok, Hnone. reflexivity.
  - intros entry entries ->. reflexivity.
Qed.

(** A request that fails, an answer with an empty list and an answer with
    no list at all. *)
Lemma results_view_after_fetch_witness :
  let route := {| Results.word := Some "अश्वगंधा"; Results.filter := None |} in
  let w := {| Results.state := Results.initial; Results.storage := ∅ |} in
  let answers := fun found : option (list DictionaryEntry) =>
                   fun _ : RequestParams =>
                     Resolves {| data := Some {| success := true; results := found |} |} in
  (exists w',
      Results.dispatch (fun _ => Results.fetchResults (fun _ => Rejects) route) w = Some w' /\
      ResultsView.view (Results.state w') = ResultsView.NoResults) /\
  (exists w',
      Results.dispatch (fun _ => Results.fetchResults (answers (Some [])) route) w = Some w' /\
      ResultsView.view (Results.state w') = ResultsView.NoResults) /\
  (exists w',
      Results.dispatch (fun _ => Results.fetchResults (answers None) route) w = Some w' /\
      ResultsView.view (Results.state w') = ResultsView.NoResults).
Proof.
  intros route w answers. split; [|split].
  - destruct (results_view_after_fetch (fun _ => Rejects) route "अश्वगंधा" w
                eq_refl eq_refl) as [w' [Hd [_ [Hfail _]]]].
    exists w'. split; [exact Hd|]. apply Hfail. reflexivity.
  - destruct (results_view_after_fetch (answers (Some [])) route "अश्वगंधा" w
                eq_refl eq_refl) as [w' [Hd [_ [_ [Hnone _]]]]].
    exists w'. split; [exact Hd|].
    apply (Hnone {| success := true; results := Some [] |}); reflexivity.
  - destruct (results_view_after_fetch (answers None) route "अश्वगंधा" w
                eq_refl eq_refl) as [w' [Hd [_ [_ [Hnone _]]]]].
    exists w'. split; [exact Hd|].
    apply (Hnone {| success := true; results := None |}); reflexivity.
Defined.

(** X14. A value under [favorites] that is not JSON does not keep the
    results from loading: the failed load is not awaited, so the mount
    effect ends normally and does exactly what [fetchResults] does. *)
Theorem corrupt_favorites_do_not_block_results
    (api : API) (route : Results.RouteParams) (store : gmap string string) (stored : string) :
  store !! "favorites" = Some stored ->
  falsy stored = false ->
  JSON_parse stored = Invalid ->
  completion (Results.loadFavorites store) = Throw SyntaxError /\
  completion (Results.on_mount api route store) = Normal tt /\
  effects (Results.on_mount api route store) = effects (Results.fetchResults api route).
Proof.
  intros Hs Ht Hp. unfold Results.on_mount, Results.detach.
  unfold Results.loadFavorites, Results.parse_json. rewrite Hs, Ht, Hp.
  split; [reflexivity|]. unfold bind, effects, completion. simpl.
  destruct (Results.fetchResults api route) as [es c]. split; reflexivity.
Qed.

Lemma corrupt_favorites_do_not_block_results_witness :
  let route := {| Results.word := Some "अश्वगंधा"; Results.filter := None |} in
  completion (Results.loadFavorites {[ "favorites" := "{" ]}) = Throw SyntaxError /\
  completion (Results.on_mount (fun _ => Rejects) route {[ "favorites" := "{" ]}) = Normal tt /\
  effects (Results.on_mount (fun _ => Rejects) route {[ "favorites" := "{" ]})
  = effects (Results.fetchResults (fun _ => Rejects) route).
Proof.
  intros route.
  apply (corrupt_favorites_do_not_block_results
           (fun _ => Rejects) route {[ "favorites" := "{" ]} "{"); reflexivity.
Defined.

(** ** Confirming a search *)

Lemma strip_spaces (w2 : ascii -> ascii -> bool) (w3 : ascii -> ascii -> ascii -> bool)
      (l : list ascii) :
  (forall c, In c l -> space1 c = true) -> strip space1 w2 w3 l = [].
Proof.
  induction l as [|c l IH]; intros H; [reflexivity|]. simpl.
  rewrite (H c) by (left; reflexivity). apply IH. intros x Hx. apply H. right. exact Hx.
Qed.

Lemma trim_blank (s : string) :
  (forall c, In c (list_ascii_of_string s) -> space1 c = true) -> trim s = EmptyString.
Proof.
  intros H. unfold trim, trimStart. rewrite strip_spaces by exact H. reflexivity.
Qed.

Section HandlerFacts.

Import HomeHandlers.

Lemma screen_effects_lift (es : list Home.Effect) :
  screen_effects (map Screen es) = es.
Proof. induction es as [|e es IH]; simpl; [reflexivity|]. rewrite IH. reflexivity. Qed.

Lemma handleSearch_effects (snap : Home.State) :
  falsy (trim (Home.word snap)) = false ->
  handleSearch snap =
  (map Screen (effects (Home.saveToHistory (trim (Home.word snap)) snap))
     ++ [RouterPush "/results"
           {| param_word := trim (Home.word snap);
              param_filter := or_undefined (Home.selectedFilter snap) |}],
   Normal tt).
Proof. intros Hne. unfold handleSearch. rewrite Hne. reflexivity. Qed.

End HandlerFacts.

(** X15. [handleSearch] on a word that is empty or made of spaces, tabs and
    line breaks only does nothing: no search is recorded, nothing is
    stored, and the screen is not left. *)
Theorem handleSearch_ignores_blank_word (snap : Home.State) :
  (forall c, In c (list_ascii_of_string (Home.word snap)) -> space1 c = true) ->
  HomeHandlers.handleSearch snap = ([], Normal tt).
Proof.
  intros H. unfold HomeHandlers.handleSearch. rewrite (trim_blank _ H). reflexivity.
Qed.

Lemma handleSearch_ignores_blank_word_witness :
  HomeHandlers.handleSearch
    {| Home.word := "   "; Home.suggestions := []; Home.history := ["क"];
       Home.selectedFilter := Some "पद"; Home.isSearching := false |}
  = ([], Normal tt).
Proof.
  apply handleSearch_ignores_blank_word. simpl.
  intros c [<-|[<-|[<-|[]]]]; reflexivity.
Defined.

(** X16. [handleSearch] on any other word records the word without the
    white space around it, as [saveToHistory] does, and goes to the results
    screen once, with that same trimmed word, which is not empty, and with
    the filter of the render. *)
Theorem handleSearch_records_and_navigates (w : Home.World) :
  falsy (trim (Home.word (Home.state w))) = false ->
  let term := trim (Home.word (Home.state w)) in
  completion (HomeHandlers.handleSearch (Home.state w)) = Normal tt /\
  HomeHandlers.dispatch HomeHandlers.handleSearch w
  = Home.dispatch (Home.saveToHistory term) w /\
  (exists w', HomeHandlers.dispatch HomeHandlers.handleSearch w = Some w' /\
              Home.history (Home.state w')
              = firstn 5 (term :: remove string_dec term (Home.history (Home.state w))) /\
              Home.word (Home.state w') = Home.word (Home.state w)) /\
  HomeHandlers.pushes (effects (HomeHandlers.handleSearch (Home.state w)))
  = [("/results",
      {| param_word := term;
         param_filter := or_undefined (Home.selectedFilter (Home.state w)) |})].
Proof.
  intros Hne term. rewrite (handleSearch_effects _ Hne). fold term.
  split; [reflexivity|].
  assert (Hd : HomeHandlers.dispatch HomeHandlers.handleSearch w
               = Home.dispatch (Home.saveToHistory term) w).
  { unfold HomeHandlers.dispatch. rewrite (handleSearch_effects _ Hne). reflexivity. }
  split; [exact Hd|]. split.
  - rewrite Hd, saveToHistory_dispatch. eexists. split; [reflexivity|].
    cbn [Home.state Home.history Home.word]. rewrite filter_differs_remove.
    split; reflexivity.
  - reflexivity.
Qed.

Lemma handleSearch_records_and_navigates_witness :
  let w := {| Home.state :=
                {| Home.word := "  अश्वगंधा "; Home.suggestions := [];
                   Home.history := ["क"]; Home.selectedFilter := Some "पद";
                   Home.isSearching := false |};
              Home.storage := ∅ |} in
  (exists w', HomeHandlers.dispatch HomeHandlers.handleSearch w = Some w' /\
              Home.history (Home.state w') = ["अश्वगंधा"; "क"]) /\
  HomeHandlers.pushes (effects (HomeHandlers.handleSearch (Home.state w)))
  = [("/results", {| param_word := "अश्वगंधा"; param_filter := Some "पद" |})].
Proof.
  intros w.
  destruct (handleSearch_records_and_navigates w eq_refl)
    as [_ [_ [[w' [Hd [Hh _]]] Hp]]].
  split; [|exact Hp]. exists w'. split; [exact Hd|]. rewrite Hh. reflexivity.
Defined.

(** X17. What the results screen asks after [handleSearch] is what the
    suggestions asked for the same word in the same render: the two
    requests are equal, and for one and the same answer of the lookup API
    the results are the suggestions. *)
Theorem results_agree_with_suggestions
    (api : API) (hw : Home.World) (rw : Results.World) :
  falsy (trim (Home.word (Home.state hw))) = false ->
  let term := trim (Home.word (Home.state hw)) in
  exists p hw' rw',
    HomeHandlers.pushes (effects (HomeHandlers.handleSearch (Home.state hw)))
    = [("/results", p)] /\
    Home.requests (effects (Home.fetchSuggestions api term (Home.state hw))) = [p] /\
    Results.requests (effects (Results.fetchResults api (HomeHandlers.route_of p))) = [p] /\
    Home.dispatch (Home.fetchSuggestions api term) hw = Some hw' /\
    Results.dispatch (fun _ => Results.fetchResults api (HomeHandlers.route_of p)) rw
    = Some rw' /\
    Results.results (Results.state rw') = Home.suggestions (Home.state hw').
Proof.
  intros Hne term.
  exists {| param_word := term;
            param_filter := or_undefined (Home.selectedFilter (Home.state hw)) |}.
  rewrite (handleSearch_effects _ Hne). fold term.
  fold term in Hne. clearbody term. destruct term as [|c rest]; [discriminate Hne|].
  destruct (fetchResults_dispatch api c rest
              (or_undefined (Home.selectedFilter (Home.state hw))) rw) as [Hreq Hd].
  rewrite or_undefined_twice in Hreq, Hd.
  do 2 eexists. split; [reflexivity|]. split; [apply fetchSuggestions_requests|].
  split; [exact Hreq|]. split; [apply fetchSuggestions_dispatch|].
  split; [exact Hd|]. reflexivity.
Qed.

Lemma results_agree_with_suggestions_witness :
  let hw := {| Home.state :=
                 {| Home.word := " अ "; Home.suggestions := []; Home.history := [];
                    Home.selectedFilter := None; Home.isSearching := false |};
               Home.storage := ∅ |} in
  let rw := {| Results.state := Results.initial; Results.storage := ∅ |} in
  exists p hw' rw',
    HomeHandlers.pushes (effects (HomeHandlers.handleSearch (Home.state hw)))
    = [("/results", p)] /\
    Home.requests (effects (Home.fetchSuggestions (fun _ => Rejects) "अ" (Home.state hw))) = [p] /\
    Results.requests
      (effects (Results.fetchResults (fun _ => Rejects) (HomeHandlers.route_of p))) = [p] /\
    Home.dispatch (Home.fetchSuggestions (fun _ => Rejects) "अ") hw = Some hw' /\
    Results.dispatch
      (fun _ => Results.fetchResults (fun _ => Rejects) (HomeHandlers.route_of p)) rw
    = Some rw' /\
    Results.results (Results.state rw') = Home.suggestions (Home.state hw').
Proof.
  intros hw rw. apply (results_agree_with_suggestions (fun _ => Rejects) hw rw).
  reflexivity.
Defined.

(** X18. Pressing a recent search, in a render that shows the recent
    searches, only puts the term in the search box: [handleSearch] still
    sees the empty word of that render, so nothing is recorded and the
    results screen is not opened. *)
Theorem history_press_only_sets_word (item : string) (w : Home.World) :
  HomeHandlers.shows_history (Home.state w) = true ->
  HomeHandlers.onPressHistoryItem item (Home.state w)
  = ([HomeHandlers.Screen (Home.SetWord item)], Normal tt) /\
  HomeHandlers.pushes (effects (HomeHandlers.onPressHistoryItem item (Home.state w))) = [] /\
  HomeHandlers.dispatch (HomeHandlers.onPressHistoryItem item) w
  = Some {| Home.state :=
              {| Home.word := item;
                 Home.suggestions := Home.suggestions (Home.state w);
                 Home.history := Home.history (Home.state w);
                 Home.selectedFilter := Home.selectedFilter (Home.state w);
                 Home.isSearching := Home.isSearching (Home.state w) |};
            Home.storage := Home.storage w |}.
Proof.
  intros Hshown. unfold HomeHandlers.shows_history in Hshown.
  apply andb_prop in Hshown as [_ Hword].
  assert (Hrun : HomeHandlers.onPressHistoryItem item (Home.state w)
                 = ([HomeHandlers.Screen (Home.SetWord item)], Normal tt)).
  { unfold HomeHandlers.onPressHistoryItem, HomeHandlers.handleSearch.
    destruct (Home.word (Home.state w)); [reflexivity | discriminate Hword]. }
  unfold HomeHandlers.dispatch. rewrite Hrun. repeat split.
Qed.

Lemma history_press_only_sets_word_witness :
  let w := {| Home.state :=
                {| Home.word := EmptyString; Home.suggestions := [];
                   Home.history := ["अश्वगंधा"; "क"];
                   Home.selectedFilter := None; Home.isSearching := false |};
              Home.storage := ∅ |} in
  HomeHandlers.pushes (effects (HomeHandlers.onPressHistoryItem "क" (Home.state w))) = [] /\
  HomeHandlers.dispatch (HomeHandlers.onPressHistoryItem "क") w
  = Some {| Home.state :=
              {| Home.word := "क"; Home.suggestions := [];
                 Home.history := ["अश्वगंधा"; "क"];
                 Home.selectedFilter := None; Home.isSearching := false |};
            Home.storage := ∅ |}.
Proof.
  intros w. apply (history_press_only_sets_word "क" w). reflexivity.
Defined.

(** X19. Choosing a suggestion puts its headword in the search box, records
    it as it is and opens the results screen with it; nothing checks the
    headword, so for an entry whose headword is empty the results screen
    gets an empty word and its fetch does nothing. *)
Theorem handleSuggestionSelect_records_headword
    (api : API) (item : DictionaryEntry) (w : Home.World) :
  let p := {| param_word := पद item;
              param_filter := or_undefined (Home.selectedFilter (Home.state w)) |} in
  completion (HomeHandlers.handleSuggestionSelect item (Home.state w)) = Normal tt /\
  HomeHandlers.pushes (effects (HomeHandlers.handleSuggestionSelect item (Home.state w)))
  = [("/results", p)] /\
  (exists w', HomeHandlers.dispatch (HomeHandlers.handleSuggestionSelect item) w = Some w' /\
              Home.word (Home.state w') = पद item /\
              Home.history (Home.state w')
              = firstn 5 (पद item :: remove string_dec (पद item)
                                            (Home.history (Home.state w))) /\
              Home.storage w' !! "searchHistory"
              = Some (JSON_stringify (Home.history (Home.state w')))) /\
  (falsy (पद item) = true ->
   Results.fetchResults api (HomeHandlers.route_of p) = ([], Normal tt)).
Proof.
  intros p. split; [reflexivity|]. split; [reflexivity|]. split.
  - unfold HomeHandlers.dispatch, HomeHandlers.handleSuggestionSelect.
    cbn [effects fst bind emit HomeHandlers.lift Home.detach Home.saveToHistory
         app map HomeHandlers.screen_effects Home.apply_effects completion snd].
    unfold Home.apply_effect at 1. cbn [Home.state Home.with_state].
    unfold Home.apply_effect at 1. cbn [Home.state Home.history].
    rewrite as_strings_of_strings. eexists. split; [reflexivity|].
    cbn [Home.state Home.word Home.history Home.storage].
    rewrite filter_differs_remove. split; [reflexivity|]. split; [reflexivity|].
    apply lookup_insert_eq.
  - intros Hempty. unfold Results.fetchResults. subst p. simpl. rewrite Hempty. reflexivity.
Qed.

(** An entry without a headword, chosen on the screen as it is at mount. *)
Lemma handleSuggestionSelect_records_headword_witness :
  Results.fetchResults (fun _ => Rejects)
    (HomeHandlers.route_of {| param_word := EmptyString; param_filter := None |})
  = ([], Normal tt).
Proof.
  apply (handleSuggestionSelect_records_headword
           (fun _ => Rejects)
           {| _id := "7"; पद := EmptyString; linga := None; vyakhya := None;
              sandarbha := None; marathi_artha := None |}
           {| Home.state := Home.initial; Home.storage := ∅ |}).
  reflexivity.
Defined.
